(** * librequests: a shallow embedding of [requests.c]

    The C functions of [src/requests.c] are transcribed as Rocq functions.
    Memory is explicit where the source manipulates it by hand: a C buffer
    is a list of cells, a cell is either a byte or indeterminate, and every
    access outside a buffer or to an indeterminate cell is a [Fault].
    A failed [assert] is a [Fault] as well (the process aborts).
    Allocation is taken to succeed, so the assertions on the results of
    [calloc], [realloc], [strndup] and [malloc] always hold and are not
    written out.

    libcurl is external to the repository: the transfer engine, its
    escaping routine and the host identification returned by [uname] are
    variables of the section [Requests]. *)

From Stdlib Require Import String.
From Stdlib Require Import ZArith List Bool Lia.
From Stdlib Require Import Init.Byte.
Import ListNotations.

Open Scope Z_scope.

(** ** Faults and the two monads of the development *)

Inductive fault : Type :=
| AssertionFailed (msg : string)
| ReadOutOfBounds (object : string) (index : Z)
| ReadIndeterminate (object : string) (index : Z)
| WriteOutOfBounds (object : string).

Inductive result (A : Type) : Type :=
| Ok (a : A)
| Fault (f : fault).

Arguments Ok {A} a.
Arguments Fault {A} f.

Class Monad (M : Type -> Type) : Type := {
  ret : forall {A}, A -> M A;
  bind : forall {A B}, M A -> (A -> M B) -> M B
}.

Declare Scope monad_scope.
Delimit Scope monad_scope with monad.
Notation "x <- c ;; k" := (bind c (fun x => k))
  (at level 61, c at next level, right associativity) : monad_scope.
Notation "' p <- c ;; k" := (bind c (fun x => let p := x in k))
  (at level 61, p pattern, c at next level, right associativity) : monad_scope.
Notation "c ;;; k" := (bind c (fun _ => k))
  (at level 61, right associativity) : monad_scope.
Open Scope monad_scope.

#[global] Instance result_Monad : Monad result := {
  ret := fun A a => Ok a;
  bind := fun A B m k => match m with Ok a => k a | Fault f => Fault f end
}.

(** [assert(c && msg)]: the process aborts when [c] is false. *)
Definition assert (c : bool) (msg : string) : result unit :=
  if c then Ok tt else Fault (AssertionFailed msg).

Fixpoint foldM {A S : Type} (f : S -> A -> result S) (l : list A) (s : S)
  : result S :=
  match l with
  | [] => Ok s
  | a :: l' => s' <- f s a ;; foldM f l' s'
  end.

(** The index schedule of [for (i = 0; i < n; i++)]. *)
Definition range (n : Z) : list Z :=
  map Z.of_nat (seq 0 (Z.to_nat n)).

(** The index schedule of [for (i = 0; i < n; i += 2)]. *)
Definition evens (n : Z) : list Z :=
  map (fun k => 2 * Z.of_nat k) (seq 0 (Z.to_nat ((n + 1) / 2))).

(** ** Machine integers *)

(** [size_t] is 64 bits wide: unsigned arithmetic wraps. *)
Definition size_t (z : Z) : Z := z mod 2 ^ 64.

(** Conversion to a 32-bit [int]. *)
Definition int (z : Z) : Z := (z + 2 ^ 31) mod 2 ^ 32 - 2 ^ 31.

(** ** Bytes, C strings and buffers *)

(** A C string is represented by the bytes that precede its terminator. *)
Definition cstring : Type := list byte.

Definition nul_free (s : list byte) : Prop := ~ In x00 s.

Definition nul_freeb (s : list byte) : bool :=
  forallb (fun c => negb (Byte.eqb c x00)) s.

Definition lit (s : string) : cstring := list_byte_of_string s.

Definition strlen (s : cstring) : Z := Z.of_nat (length s).

(** A cell of allocated memory: [None] is an indeterminate value. *)
Definition buffer : Type := list (option byte).

(** Reading the C string stored at the start of object [obj]: the bytes up
    to the first terminator. *)
Fixpoint scan (obj : string) (i : Z) (b : buffer) : result cstring :=
  match b with
  | [] => Fault (ReadOutOfBounds obj i)
  | None :: _ => Fault (ReadIndeterminate obj i)
  | Some c :: b' =>
      if Byte.eqb c x00 then Ok []
      else s <- scan obj (i + 1) b' ;; Ok (c :: s)
  end.

Definition c_str (obj : string) (b : buffer) : result cstring := scan obj 0 b.

(** Storing [bs] at offset [off] of object [obj]. *)
Definition poke (obj : string) (b : buffer) (off : nat) (bs : list byte)
  : result buffer :=
  if (off + length bs <=? length b)%nat
  then Ok (firstn off b ++ map Some bs ++ skipn (off + length bs) b)
  else Fault (WriteOutOfBounds obj).

(** [strcat(dst, src)] *)
Definition strcat (obj : string) (dst : buffer) (src : cstring)
  : result buffer :=
  s <- c_str obj dst ;; poke obj dst (length s) (src ++ [x00]).

(** [strncat(dst, src, n)]: at most [n] bytes of [src], then a terminator. *)
Definition strncat (obj : string) (dst : buffer) (src : cstring) (n : Z)
  : result buffer :=
  s <- c_str obj dst ;;
  poke obj dst (length s) (firstn (Z.to_nat n) src ++ [x00]).

(** [snprintf(buf, n, fmt, ...)] where [out] is the formatted text: at most
    [n - 1] bytes of it are stored, then a terminator; nothing when [n = 0]. *)
Definition snprintf (obj : string) (buf : buffer) (n : Z) (out : cstring)
  : result buffer :=
  if n =? 0 then Ok buf
  else poke obj buf 0 (firstn (Z.to_nat (n - 1)) out ++ [x00]).

(** [strndup(content, n)]: [content] points to raw bytes, not to a C string;
    the copy stops at the first zero byte or after [n] bytes. *)
Fixpoint strndup (content : list byte) (i : Z) (n : nat) : result cstring :=
  match n with
  | O => Ok []
  | S n' =>
      match content with
      | [] => Fault (ReadOutOfBounds "content" i)
      | c :: content' =>
          if Byte.eqb c x00 then Ok []
          else s <- strndup content' (i + 1) n' ;; Ok (c :: s)
      end
  end.

(** [calloc(1, n)] *)
Definition calloc (n : Z) : buffer := repeat (Some x00) (Z.to_nat n).

(** [malloc(n)]: allocation is taken to succeed; the cells are indeterminate. *)
Definition malloc (n : Z) : buffer := repeat None (Z.to_nat n).

(** [realloc(p, n)]: the old cells are kept up to the lesser of the two
    sizes, the new ones are indeterminate.  Allocation is taken to succeed. *)
Definition realloc (p : buffer) (n : Z) : buffer :=
  firstn (Z.to_nat n) p ++ repeat None (Z.to_nat n - length p).

(** Element [i] of the array [a]. *)
Definition index {A : Type} (obj : string) (a : list A) (i : Z) : result A :=
  if i <? 0 then Fault (ReadOutOfBounds obj i)
  else match nth_error a (Z.to_nat i) with
       | Some x => Ok x
       | None => Fault (ReadOutOfBounds obj i)
       end.

(** ** The Request Context and the engine handle *)

(** Modelled from the spec: [requests.h], which declares the struct [REQ], is
    not among the sources.  The Request Context of the spec has a status
    code, a target URL, a body and a body length; [requests.c] names them
    [code], [url], [text] and [size].  A NULL [url] is [None]; [text] is the
    heap block the context owns. *)
Record REQ : Type := mkREQ {
  code : Z;
  url : option cstring;
  text : buffer;
  size : Z
}.

(** The only write function this library ever installs. *)
Inductive write_function : Type := the_callback.

(** The options of a libcurl easy handle that [requests.c] sets.  A pointer
    option that is NULL or was never set is [None]. *)
Record CURL : Type := mkCURL {
  CURLOPT_URL : option cstring;
  CURLOPT_WRITEFUNCTION : option write_function;
  CURLOPT_WRITEDATA : bool;
  CURLOPT_POSTFIELDS : option cstring;
  CURLOPT_HTTPHEADER : option (list cstring);
  CURLOPT_CUSTOMREQUEST : option cstring;
  CURLOPT_POST : Z;
  CURLOPT_USERAGENT : option cstring
}.

Definition curl_easy_init : CURL :=
  mkCURL None None false None None None 0 None.

Definition set_URL (v : option cstring) (c : CURL) : CURL :=
  mkCURL v (CURLOPT_WRITEFUNCTION c) (CURLOPT_WRITEDATA c)
    (CURLOPT_POSTFIELDS c) (CURLOPT_HTTPHEADER c) (CURLOPT_CUSTOMREQUEST c)
    (CURLOPT_POST c) (CURLOPT_USERAGENT c).

Definition set_WRITEFUNCTION (v : write_function) (c : CURL) : CURL :=
  mkCURL (CURLOPT_URL c) (Some v) (CURLOPT_WRITEDATA c)
    (CURLOPT_POSTFIELDS c) (CURLOPT_HTTPHEADER c) (CURLOPT_CUSTOMREQUEST c)
    (CURLOPT_POST c) (CURLOPT_USERAGENT c).

Definition set_WRITEDATA (c : CURL) : CURL :=
  mkCURL (CURLOPT_URL c) (CURLOPT_WRITEFUNCTION c) true
    (CURLOPT_POSTFIELDS c) (CURLOPT_HTTPHEADER c) (CURLOPT_CUSTOMREQUEST c)
    (CURLOPT_POST c) (CURLOPT_USERAGENT c).

Definition set_POSTFIELDS (v : cstring) (c : CURL) : CURL :=
  mkCURL (CURLOPT_URL c) (CURLOPT_WRITEFUNCTION c) (CURLOPT_WRITEDATA c)
    (Some v) (CURLOPT_HTTPHEADER c) (CURLOPT_CUSTOMREQUEST c)
    (CURLOPT_POST c) (CURLOPT_USERAGENT c).

Definition set_HTTPHEADER (v : option (list cstring)) (c : CURL) : CURL :=
  mkCURL (CURLOPT_URL c) (CURLOPT_WRITEFUNCTION c) (CURLOPT_WRITEDATA c)
    (CURLOPT_POSTFIELDS c) v (CURLOPT_CUSTOMREQUEST c)
    (CURLOPT_POST c) (CURLOPT_USERAGENT c).

Definition set_CUSTOMREQUEST (v : cstring) (c : CURL) : CURL :=
  mkCURL (CURLOPT_URL c) (CURLOPT_WRITEFUNCTION c) (CURLOPT_WRITEDATA c)
    (CURLOPT_POSTFIELDS c) (CURLOPT_HTTPHEADER c) (Some v)
    (CURLOPT_POST c) (CURLOPT_USERAGENT c).

Definition set_POST (v : Z) (c : CURL) : CURL :=
  mkCURL (CURLOPT_URL c) (CURLOPT_WRITEFUNCTION c) (CURLOPT_WRITEDATA c)
    (CURLOPT_POSTFIELDS c) (CURLOPT_HTTPHEADER c) (CURLOPT_CUSTOMREQUEST c)
    v (CURLOPT_USERAGENT c).

Definition set_USERAGENT (v : cstring) (c : CURL) : CURL :=
  mkCURL (CURLOPT_URL c) (CURLOPT_WRITEFUNCTION c) (CURLOPT_WRITEDATA c)
    (CURLOPT_POSTFIELDS c) (CURLOPT_HTTPHEADER c) (CURLOPT_CUSTOMREQUEST c)
    (CURLOPT_POST c) (Some v).

(** [curl_slist_append]: a NULL list is [None]. *)
Definition curl_slist_append (l : option (list cstring)) (s : cstring)
  : option (list cstring) :=
  match l with
  | None => Some [s]
  | Some l' => Some (l' ++ [s])
  end.

(** What the engine does with one transfer: the chunks of response body it
    hands to the write function, the return value of [curl_easy_perform]
    (0 is [CURLE_OK]) and the response code [curl_easy_getinfo] reports. *)
Record outcome : Type := mkOutcome {
  chunks : list (list byte);
  CURLcode : Z;
  RESPONSE_CODE : Z
}.

Definition CURLE_WRITE_ERROR : Z := 23.

(** Executors run in a state and error monad: the state is the log of the
    transfers performed so far, each recorded as the handle it ran with. *)
Definition exec (A : Type) : Type := list CURL -> list CURL * result A.

#[global] Instance exec_Monad : Monad exec := {
  ret := fun A a log => (log, Ok a);
  bind := fun A B m k log =>
    match m log with
    | (log', Ok a) => k a log'
    | (log', Fault f) => (log', Fault f)
    end
}.

Definition lift {A : Type} (r : result A) : exec A := fun log => (log, r).

(** ** [requests.c] *)

Definition requests_init (req : REQ) (url0 : option cstring) : CURL * REQ :=
  (curl_easy_init,
   {| code := 0; url := url0; text := calloc 1; size := 0 |}).

(** [callback]: [content] is the memory the engine passes, [size * nmemb]
    the number of bytes it announces.  The result is the updated context and
    the value returned to the engine. *)
Definition callback (content : list byte) (size0 nmemb : Z) (userdata : REQ)
  : result (REQ * Z) :=
  let real_size := size_t (size0 * nmemb) in
  let text1 := realloc (text userdata) (size_t (size userdata + real_size + 1)) in
  let size1 := size_t (size userdata + real_size) in
  responsetext <- strndup content 0 (Z.to_nat (size_t (size0 * nmemb))) ;;
  text2 <- strcat "text" text1 responsetext ;;
  Ok ({| code := code userdata; url := url userdata;
         text := text2; size := size1 |},
      size_t (size0 * nmemb)).

(** The engine hands the chunks to [callback] one by one, with [size = 1];
    a return value other than the chunk length aborts the transfer. *)
Fixpoint deliver (cs : list (list byte)) (req : REQ) : result (REQ * bool) :=
  match cs with
  | [] => Ok (req, true)
  | c :: cs' =>
      ' (req', n) <- callback c 1 (Z.of_nat (length c)) req ;;
      if n =? Z.of_nat (length c) then deliver cs' req' else Ok (req', false)
  end.

Section Requests.

(** Bytes that the platform leaves writable past the end of a
    variable-length array.  ISO C guarantees none: there [slack = 0]. *)
Variable slack : nat.

(** [curl_easy_escape], libcurl's percent-encoding routine. *)
Variable curl_easy_escape : cstring -> cstring.

(** The transfer engine: the outcome of a transfer run with a handle. *)
Variable engine : CURL -> outcome.

(** The fields [sysname] and [release] that [uname] fills in. *)
Variables sysname release : cstring.

(** A variable-length array [char a[n]]. *)
Definition vla (n : Z) : buffer := repeat None (Z.to_nat n + slack).

(** One iteration of the pairing loop of [url_encode]. *)
Definition pair_body (data : list cstring) (encoded : buffer) (i : Z)
  : result buffer :=
  key <- index "data" data i ;;
  val <- index "data" data (i + 1) ;;
  let offset := if i =? 0 then 2 else 3 in
  let term_size := size_t (strlen key + strlen val + offset) in
  let term := vla term_size in
  term <- (if i =? 0
           then snprintf "term" term term_size (key ++ lit "=" ++ val)
           else snprintf "term" term term_size
                  (lit "&" ++ key ++ lit "=" ++ val)) ;;
  t <- c_str "term" term ;;
  strncat "encoded" encoded t (strlen t).

Definition url_encode (curl : CURL) (data : list cstring) (data_size : Z)
  : result cstring :=
  total_size <-
    foldM (fun total_size i =>
             tmp <- index "data" data i ;;
             let tmp_len := strlen tmp in
             Ok (size_t (total_size + tmp_len)))
          (range data_size) 0 ;;
  let encoded := vla total_size in
  encoded <- snprintf "encoded" encoded total_size (lit "") ;;
  encoded <- foldM (pair_body data) (evens data_size) encoded ;;
  s <- c_str "encoded" encoded ;;
  Ok (curl_easy_escape s).

Definition common_opt (curl : CURL) (req : REQ) : CURL :=
  let curl := set_URL (url req) curl in
  let curl := set_WRITEFUNCTION the_callback curl in
  set_WRITEDATA curl.

Definition user_agent : result buffer :=
  let ua_size := 3 in
  let basic := lit "librequests/0.1" in
  let ua_size := int (ua_size + strlen basic) in
  let kernel := sysname in
  let ua_size := int (ua_size + strlen kernel) in
  let version := release in
  let ua_size := int (ua_size + strlen version) in
  let ua := malloc (size_t ua_size) in
  snprintf "ua" ua (size_t ua_size)
    (basic ++ lit " " ++ kernel ++ lit "/" ++ version).

(** [curl_easy_perform]: the transfer is logged with the handle it runs
    with; the body reaches the context through the installed write
    function.  Without one the engine writes the body to [stdout]. *)
Definition curl_easy_perform (curl : CURL) (req : REQ) : exec (REQ * Z) :=
  fun log =>
    let o := engine curl in
    (log ++ [curl],
     match CURLOPT_WRITEFUNCTION curl, CURLOPT_WRITEDATA curl with
     | Some the_callback, true =>
         ' (req', consumed) <- deliver (chunks o) req ;;
         Ok (req', if consumed : bool then CURLcode o else CURLE_WRITE_ERROR)
     | _, _ => Ok (req, CURLcode o)
     end).

(** [curl_easy_getinfo(curl, CURLINFO_RESPONSE_CODE, &code)] *)
Definition curl_easy_getinfo (curl : CURL) : Z := RESPONSE_CODE (engine curl).

Definition requests_get (curl : CURL) (req : REQ) : exec (CURL * REQ) :=
  lift (assert (match url req with Some _ => true | None => false end)
          "ERROR: No URL provided") ;;;
  let curl := common_opt curl req in
  let curl := set_WRITEFUNCTION the_callback curl in
  let curl := set_WRITEDATA curl in
  ' (req, _) <- curl_easy_perform curl req ;;
  let code0 := curl_easy_getinfo curl in
  ret (curl, {| code := code0; url := url req;
                text := text req; size := size req |}).

(** The releases that end [requests_pt] ([curl_free], [curl_slist_free_all],
    [free]) are not represented: the model has no freed blocks.  The handle
    in the result is the handle the transfer ran with; a later call on it is
    outside the model, since the program leaves it with a released body and
    header list. *)
Definition requests_pt (curl : CURL) (req : REQ)
           (data : option (list cstring)) (data_size : Z)
           (headers : option (list cstring)) (headers_size : Z)
           (put_flag : Z) : exec (CURL * REQ) :=
  ua <- lift user_agent ;;
  lift (assert ((put_flag =? 0) || (put_flag =? 1))
          "ERROR: Invalid PUT request flag") ;;;
  (* body data *)
  ' (curl, slist) <-
    match data with
    | Some data =>
        lift (assert (Z.rem data_size 2 =? 0)
                "ERROR: Data size must be even") ;;;
        encoded <- lift (url_encode curl data data_size) ;;
        ret (set_POSTFIELDS encoded curl, None)
    | None =>
        let slist := curl_slist_append None (lit "Content-Length: 0") in
        ret (match headers with
             | None => set_HTTPHEADER slist curl
             | Some _ => curl
             end, slist)
    end ;;
  (* headers *)
  ' (curl, slist) <-
    match headers with
    | Some headers =>
        slist <- lift (foldM (fun slist i =>
                                h <- index "headers" headers i ;;
                                Ok (curl_slist_append slist h))
                             (range headers_size) slist) ;;
        ret (set_HTTPHEADER slist curl, slist)
    | None => ret (curl, slist)
    end ;;
  let curl := common_opt curl req in
  let curl := if put_flag =? 0
              then set_POST 1 curl
              else set_CUSTOMREQUEST (lit "PUT") curl in
  ua <- lift (c_str "ua" ua) ;;
  let curl := set_USERAGENT ua curl in
  ' (req, _) <- curl_easy_perform curl req ;;
  let code0 := curl_easy_getinfo curl in
  ret (curl, {| code := code0; url := url req;
                text := text req; size := size req |}).

Definition requests_post (curl : CURL) (req : REQ)
           (data : option (list cstring)) (data_size : Z)
  : exec (CURL * REQ) :=
  requests_pt curl req data data_size None 0 0.

Definition requests_put (curl : CURL) (req : REQ)
           (data : option (list cstring)) (data_size : Z)
  : exec (CURL * REQ) :=
  requests_pt curl req data data_size None 0 1.

Definition requests_post_headers (curl : CURL) (req : REQ)
           (data : option (list cstring)) (data_size : Z)
           (headers : option (list cstring)) (headers_size : Z)
  : exec (CURL * REQ) :=
  requests_pt curl req data data_size headers headers_size 0.

Definition requests_put_headers (curl : CURL) (req : REQ)
           (data : option (list cstring)) (data_size : Z)
           (headers : option (list cstring)) (headers_size : Z)
  : exec (CURL * REQ) :=
  requests_pt curl req data data_size headers headers_size 1.

End Requests.

(** ** The text of the specification *)

(** The input read as key/value pairs. *)
Fixpoint pairs (data : list cstring) : list (cstring * cstring) :=
  match data with
  | k :: v :: rest => (k, v) :: pairs rest
  | _ => []
  end.

Fixpoint intercalate (sep : cstring) (l : list cstring) : cstring :=
  match l with
  | [] => []
  | [x] => x
  | x :: l' => x ++ sep ++ intercalate sep l'
  end.

(** [key0=value0&key1=value1&...], pairs in input order. *)
Definition joined (data : list cstring) : cstring :=
  intercalate (lit "&") (map (fun kv => fst kv ++ lit "=" ++ snd kv) (pairs data)).

Definition total_length (data : list cstring) : Z :=
  fold_right (fun s acc => strlen s + acc) 0 data.

(** Modelled from the spec: the escaping routine is the engine's, not this
    repository's.  Letters, digits and [-], [.], [_], [~] are kept; every
    other byte, [=], [&] and space among them, becomes [%] followed by two
    upper-case hexadecimal digits. *)
Definition unreserved (c : byte) : bool :=
  let n := Byte.to_N c in
  ((48 <=? n) && (n <=? 57) || (65 <=? n) && (n <=? 90)
   || (97 <=? n) && (n <=? 122)
   || (n =? 45) || (n =? 46) || (n =? 95) || (n =? 126))%N.

Definition hex_digit (n : N) : byte :=
  match n with
  | 0 => x30 | 1 => x31 | 2 => x32 | 3 => x33 | 4 => x34 | 5 => x35
  | 6 => x36 | 7 => x37 | 8 => x38 | 9 => x39 | 10 => x41 | 11 => x42
  | 12 => x43 | 13 => x44 | 14 => x45 | _ => x46
  end%N.

Definition percent_encode (s : cstring) : cstring :=
  flat_map (fun c =>
              if unreserved c then [c]
              else [x25; hex_digit (Byte.to_N c / 16);
                    hex_digit (Byte.to_N c mod 16)]%N) s.

(** The context right after [requests_init], whatever it held before. *)
Definition fresh (url0 : option cstring) : REQ :=
  snd (requests_init (mkREQ 0 None [] 0) url0).

(** The body as a reader of the context sees it: the C string in [text]. *)
Definition body (req : REQ) : result cstring := c_str "text" (text req).

(** The context owns a block of [size + 1] bytes that starts with the C
    string [s], and [s] is no longer than [size]. *)
Definition holds (req : REQ) (s : cstring) : Prop :=
  body req = Ok s /\
  Z.of_nat (length (text req)) = size req + 1 /\
  Z.of_nat (length s) <= size req.

(** The part of a chunk that precedes its first zero byte. *)
Fixpoint upto_nul (chunk : list byte) : cstring :=
  match chunk with
  | [] => []
  | c :: chunk' => if Byte.eqb c x00 then [] else c :: upto_nul chunk'
  end.

Definition chunk_bytes (cs : list (list byte)) : Z :=
  fold_right (fun c acc => Z.of_nat (length c) + acc) 0 cs.

(** The text the pairing loop appends for the pair number [k]. *)
Definition term_text (k : nat) (key val : cstring) : cstring :=
  match k with
  | O => key ++ lit "=" ++ val
  | S _ => lit "&" ++ key ++ lit "=" ++ val
  end.

(** [<product>/<version> <host-os-name>/<host-os-release>] *)
Definition user_agent_text (sysname release : cstring) : cstring :=
  lit "librequests/0.1" ++ lit " " ++ sysname ++ lit "/" ++ release.

(** The method selection of [requests_pt]. *)
Definition method (put_flag : Z) (curl : CURL) : CURL :=
  if put_flag =? 0 then set_POST 1 curl
  else set_CUSTOMREQUEST (lit "PUT") curl.

(** The end of every executor: the transfer, then the status code. *)
Definition finish (engine : CURL -> outcome) (curl : CURL) (req : REQ)
  : exec (CURL * REQ) :=
  ' (req, _) <- curl_easy_perform engine curl req ;;
  let code0 := curl_easy_getinfo engine curl in
  ret (curl, {| code := code0; url := url req;
                text := text req; size := size req |}).

(** The handle [requests_get] runs its transfer with. *)
Definition get_handle (curl : CURL) (req : REQ) : CURL :=
  set_WRITEDATA (set_WRITEFUNCTION the_callback (common_opt curl req)).

(** The handle [requests_pt] runs its transfer with, where [c0] carries the
    body and the headers and [ua] is the user agent. *)
Definition pt_handle (ua : cstring) (put_flag : Z) (c0 : CURL) (req : REQ)
  : CURL :=
  set_USERAGENT ua (method put_flag (common_opt c0 req)).

(** The custom headers [requests_pt] reads from its arguments. *)
Definition custom (headers : option (list cstring)) (headers_size : Z)
  : list cstring :=
  match headers with
  | Some h => firstn (Z.to_nat headers_size) h
  | None => []
  end.

(** Engines used as concrete instances: a server that answers 200 with a
    short body, a transfer that finds no server, and a transfer that breaks
    after the status line and part of the body have arrived
    ([CURLE_PARTIAL_FILE] is 18, [CURLE_COULDNT_CONNECT] is 7). *)
Definition answering_engine (_ : CURL) : outcome :=
  mkOutcome [lit "hel"; lit "lo"] 0 200.

Definition unreachable_engine (_ : CURL) : outcome := mkOutcome [] 7 0.

Definition breaking_engine (_ : CURL) : outcome := mkOutcome [lit "ab"] 18 200.

(** What an executor may do to the context [req]: the result [req'] has the
    URL of [req], the status code the engine reports for the handle [c], and
    the body and length that the calls of [callback] for the chunks of the
    transfer leave, none of which touches the URL or the status code. *)
Definition framed (engine : CURL -> outcome) (req : REQ) (c : CURL)
           (req' : REQ) : Prop :=
  url req' = url req /\
  code req' = RESPONSE_CODE (engine c) /\
  exists mid b,
    deliver (chunks (engine c)) req = Ok (mid, b) /\
    text req' = text mid /\ size req' = size mid /\
    code mid = code req /\ url mid = url req.

(** A fault of the memory model, as opposed to a failed assertion. *)
Definition memory_fault (e : fault) : Prop :=
  match e with
  | AssertionFailed _ => False
  | _ => True
  end.

(** ** Buffers *)

Lemma eqb_x00_false (c : byte) : c <> x00 -> Byte.eqb c x00 = false.
Proof.
  intro H. destruct (Byte.eqb c x00) eqn:E; [|reflexivity].
  apply Byte.byte_dec_bl in E. contradiction.
Qed.

Lemma eqb_x00_true (c : byte) : Byte.eqb c x00 = true -> c = x00.
Proof. apply Byte.byte_dec_bl. Qed.

Lemma nul_free_cons (c : byte) (s : list byte) :
  nul_free (c :: s) <-> c <> x00 /\ nul_free s.
Proof.
  unfold nul_free; simpl; split.
  - intro H; split; intro; apply H; auto.
  - intros [H1 H2] [H|H]; auto.
Qed.

Lemma nul_free_app (s t : list byte) :
  nul_free (s ++ t) <-> nul_free s /\ nul_free t.
Proof.
  unfold nul_free; split.
  - intro H; split; intro; apply H; apply in_or_app; auto.
  - intros [H1 H2] H; apply in_app_or in H; tauto.
Qed.

Lemma nul_freeb_spec (s : list byte) : nul_freeb s = true <-> nul_free s.
Proof.
  induction s as [|c s IH]; simpl.
  - split; [intros _ H; inversion H | reflexivity].
  - rewrite andb_true_iff, IH, nul_free_cons, negb_true_iff.
    split; intros [H1 H2]; split; auto.
    + intro E; subst; discriminate.
    + now apply eqb_x00_false.
Qed.

Lemma scan_string (obj : string) (s : cstring) (rest : buffer) :
  nul_free s -> forall i, scan obj i (map Some s ++ Some x00 :: rest) = Ok s.
Proof.
  induction s as [|c s IH]; intros Hs i; simpl.
  - reflexivity.
  - apply nul_free_cons in Hs as [Hc Hs].
    rewrite (eqb_x00_false _ Hc), (IH Hs). reflexivity.
Qed.

Lemma scan_inv (obj : string) (b : buffer) :
  forall i s, scan obj i b = Ok s ->
              nul_free s /\ exists rest, b = map Some s ++ Some x00 :: rest.
Proof.
  induction b as [|[c|] b IH]; intros i s; simpl; try discriminate.
  destruct (Byte.eqb c x00) eqn:E.
  - intro H; inversion H; subst. split; [intros []|].
    apply eqb_x00_true in E; subst. now exists b.
  - destruct (scan obj (i + 1) b) as [s'|] eqn:Es; simpl; try discriminate.
    intro H; inversion H; subst.
    destruct (IH _ _ Es) as [Hs [rest ->]]. split.
    + apply nul_free_cons; split; auto. intro; subst; discriminate.
    + now exists rest.
Qed.

Lemma poke_fits (obj : string) (pre : buffer) (c : option byte)
      (rest : buffer) (bs : list byte) (off : nat) :
  off = length pre ->
  (length bs <= S (length rest))%nat ->
  poke obj (pre ++ c :: rest) off bs
  = Ok (pre ++ map Some bs ++ skipn (length bs) (c :: rest)).
Proof.
  intros -> H. unfold poke.
  rewrite length_app; simpl length.
  destruct (Nat.leb_spec (length pre + length bs) (length pre + S (length rest)));
    [|lia].
  rewrite firstn_app, firstn_all, Nat.sub_diag; simpl firstn.
  rewrite app_nil_r, skipn_app.
  rewrite skipn_all2 by lia.
  replace (length pre + length bs - length pre)%nat with (length bs) by lia.
  reflexivity.
Qed.

Lemma poke_overrun (obj : string) (b : buffer) (off : nat) (bs : list byte) :
  (length b < off + length bs)%nat ->
  poke obj b off bs = Fault (WriteOutOfBounds obj).
Proof.
  intro H. unfold poke.
  destruct (Nat.leb_spec (off + length bs) (length b)); [lia|reflexivity].
Qed.

Lemma poke_length (obj : string) (b b' : buffer) (off : nat) (bs : list byte) :
  poke obj b off bs = Ok b' -> length b' = length b.
Proof.
  unfold poke.
  destruct (Nat.leb_spec (off + length bs) (length b)); [|discriminate].
  intro E; inversion E; subst.
  rewrite !length_app, length_map, length_firstn, length_skipn. lia.
Qed.

Lemma size_t_small (z : Z) : 0 <= z < 2 ^ 64 -> size_t z = z.
Proof. intro H. unfold size_t. now apply Z.mod_small. Qed.

Lemma strndup_inv (content : list byte) :
  forall n i r, strndup content i n = Ok r ->
                nul_free r /\ (length r <= n)%nat /\
                exists tl, content = r ++ tl.
Proof.
  induction content as [|c content IH]; intros [|n] i r; simpl;
    try discriminate.
  - intro H; inversion H; subst.
    split; [intros []|split; [simpl; lia|now exists []]].
  - intro H; inversion H; subst.
    split; [intros []|split; [simpl; lia|now exists (c :: content)]].
  - destruct (Byte.eqb c x00) eqn:E.
    + intro H; inversion H; subst.
      split; [intros []|split; [simpl; lia|now exists (c :: content)]].
    + destruct (strndup content (i + 1) n) as [r'|] eqn:Er; simpl;
        try discriminate.
      intro H; inversion H; subst.
      destruct (IH _ _ _ Er) as (Hr & Hl & tl & ->).
      split; [|split].
      * apply nul_free_cons; split; auto. intro; subst; discriminate.
      * simpl; lia.
      * now exists tl.
Qed.

Lemma strndup_whole (content : list byte) :
  nul_free content ->
  forall i, strndup content i (length content) = Ok content.
Proof.
  induction content as [|c content IH]; intros H i; simpl; [reflexivity|].
  apply nul_free_cons in H as [Hc H].
  rewrite (eqb_x00_false _ Hc), (IH H). reflexivity.
Qed.

Lemma strndup_total (content : list byte) :
  forall n i, (n <= length content)%nat ->
              exists r, strndup content i n = Ok r.
Proof.
  induction content as [|c content IH]; intros [|n] i Hn; simpl in *.
  - now exists [].
  - lia.
  - now exists [].
  - destruct (Byte.eqb c x00); [now exists []|].
    assert (Hn' : (n <= length content)%nat) by lia.
    destruct (IH n (i + 1) Hn') as [r ->]. now exists (c :: r).
Qed.

Lemma realloc_grow (p : buffer) (n : Z) :
  Z.of_nat (length p) <= n ->
  realloc p n = p ++ repeat None (Z.to_nat n - length p).
Proof.
  intro H. unfold realloc. rewrite firstn_all2 by lia. reflexivity.
Qed.

(** One call of [callback] on a context that [holds] the string [s]: the
    string gains [r], the bytes [strndup] copied, while [size] gains the
    announced [size * nmemb]. *)
Lemma callback_step (content : list byte) (size0 nmemb : Z) (req : REQ)
      (s r : cstring) :
  holds req s ->
  0 <= size0 * nmemb ->
  size req + size0 * nmemb + 1 < 2 ^ 64 ->
  strndup content 0 (Z.to_nat (size0 * nmemb)) = Ok r ->
  exists req',
    callback content size0 nmemb req = Ok (req', size0 * nmemb) /\
    holds req' (s ++ r) /\
    size req' = size req + size0 * nmemb /\
    code req' = code req /\ url req' = url req.
Proof.
  intros (Hb & Hlen & Hs) Hpos Hmax Hdup.
  unfold body, c_str in Hb.
  destruct (scan_inv _ _ _ _ Hb) as (Hnf & rest & Etext).
  destruct (strndup_inv _ _ _ _ Hdup) as (Hr & Hrl & _).
  assert (Hrest : Z.of_nat (length rest) = size req - Z.of_nat (length s)).
  { rewrite Etext, length_app, length_map in Hlen. simpl in Hlen. lia. }
  unfold callback.
  rewrite (size_t_small (size0 * nmemb)) by lia.
  rewrite !size_t_small by lia.
  rewrite Hdup. cbn [bind result_Monad].
  rewrite realloc_grow by lia.
  unfold strcat, c_str.
  rewrite Etext, <- app_assoc. cbn [app].
  rewrite (scan_string _ _ _ Hnf). cbn [bind result_Monad].
  rewrite poke_fits.
  2:{ now rewrite length_map. }
  2:{ rewrite !length_app, repeat_length, length_map.
      simpl length. lia. }
  eexists; split; [reflexivity|].
  unfold holds, body, c_str. cbn [size code url text].
  repeat split; try lia.
  - match goal with
    | |- scan _ _ (_ ++ _ ++ ?tl) = _ =>
        replace (map Some s ++ map Some (r ++ [x00]) ++ tl)
          with (map Some (s ++ r) ++ Some x00 :: tl)
          by (rewrite !map_app, <- !app_assoc; reflexivity)
    end.
    apply scan_string. apply nul_free_app; auto.
  - repeat (rewrite ?length_app, ?length_map, ?length_skipn, ?repeat_length;
            cbn [length]).
    lia.
  - rewrite length_app. lia.
Qed.

Lemma strndup_upto_nul (chunk : list byte) :
  forall i, strndup chunk i (length chunk) = Ok (upto_nul chunk).
Proof.
  induction chunk as [|c chunk IH]; intro i; simpl; [reflexivity|].
  destruct (Byte.eqb c x00); [reflexivity|]. now rewrite IH.
Qed.

Lemma upto_nul_nul_free (chunk : list byte) :
  nul_free chunk -> upto_nul chunk = chunk.
Proof.
  induction chunk as [|c chunk IH]; intro H; simpl; [reflexivity|].
  apply nul_free_cons in H as [Hc H].
  now rewrite (eqb_x00_false _ Hc), IH.
Qed.

Lemma chunk_bytes_nonneg (cs : list (list byte)) : 0 <= chunk_bytes cs.
Proof. induction cs; simpl; lia. Qed.

Lemma fresh_holds (url0 : option cstring) : holds (fresh url0) [].
Proof. unfold holds, body, fresh; cbn. repeat split; lia. Qed.

(** A whole transfer: every chunk is consumed, the body gains the text of
    each chunk up to its first zero byte, [size] gains every byte. *)
Lemma deliver_run (cs : list (list byte)) :
  forall (req : REQ) (s : cstring),
    holds req s ->
    size req + chunk_bytes cs + 1 < 2 ^ 64 ->
    exists req',
      deliver cs req = Ok (req', true) /\
      holds req' (s ++ concat (map upto_nul cs)) /\
      size req' = size req + chunk_bytes cs /\
      code req' = code req /\ url req' = url req.
Proof.
  induction cs as [|c cs IH]; intros req s Hh Hmax.
  - exists req. simpl. rewrite app_nil_r, Z.add_0_r. auto.
  - simpl in Hmax. pose proof (chunk_bytes_nonneg cs) as Hcs.
    assert (E1 : 1 * Z.of_nat (length c) = Z.of_nat (length c)) by lia.
    destruct (callback_step c 1 (Z.of_nat (length c)) req s (upto_nul c) Hh)
      as (req1 & Hcb & Hh1 & Hsz & Hcode & Hurl); try lia.
    { rewrite E1, Nat2Z.id. apply strndup_upto_nul. }
    destruct (IH req1 (s ++ upto_nul c) Hh1) as (req2 & Hd & Hh2 & Hsz2 & Hc2 & Hu2);
      [lia|].
    exists req2. simpl. rewrite Hcb. cbn [bind result_Monad].
    rewrite E1, Z.eqb_refl, Hd. rewrite <- app_assoc in Hh2.
    repeat split; try apply Hh2; try congruence; lia.
Qed.

Lemma concat_upto_nul (cs : list (list byte)) :
  Forall nul_free cs -> concat (map upto_nul cs) = concat cs.
Proof.
  induction 1 as [|c cs Hc _ IH]; simpl; [reflexivity|].
  now rewrite IH, upto_nul_nul_free.
Qed.

Lemma length_concat_chunks (cs : list (list byte)) :
  Z.of_nat (length (concat cs)) = chunk_bytes cs.
Proof.
  induction cs as [|c cs IH]; simpl; [reflexivity|].
  rewrite length_app. lia.
Qed.

(** For chunks without a zero byte the accumulator does what the
    documentation of [requests_get] promises: the body is the response and
    [size] is its length. *)
Lemma deliver_text_chunks (cs : list (list byte)) (url0 : option cstring) :
  Forall nul_free cs ->
  chunk_bytes cs + 1 < 2 ^ 64 ->
  exists req',
    deliver cs (fresh url0) = Ok (req', true) /\
    body req' = Ok (concat cs) /\
    size req' = Z.of_nat (length (concat cs)).
Proof.
  intros Hnf Hmax.
  destruct (deliver_run cs (fresh url0) [] (fresh_holds url0))
    as (req' & Hd & (Hb & _) & Hsz & _); [cbn; lia|].
  exists req'. rewrite concat_upto_nul in Hb by assumption.
  rewrite length_concat_chunks. cbn in Hsz. auto.
Qed.

Example accumulate_ab_empty_cde :
  exists req',
    deliver [lit "ab"; lit ""; lit "cde"] (fresh None) = Ok (req', true) /\
    body req' = Ok (lit "abcde") /\ size req' = 5.
Proof. eexists. repeat split. Qed.

Lemma upto_nul_shorter (chunk : list byte) :
  In x00 chunk -> (length (upto_nul chunk) < length chunk)%nat.
Proof.
  induction chunk as [|c chunk IH]; simpl; [intros []|].
  destruct (Byte.eqb c x00) eqn:E; [simpl; lia|].
  intros [H|H].
  - subst. discriminate.
  - specialize (IH H). simpl. lia.
Qed.

(** Any chunk with a zero byte in it leaves [size] larger than the body. *)
Lemma callback_binary_chunk (chunk : list byte) (req : REQ) (s : cstring) :
  holds req s ->
  In x00 chunk ->
  size req + Z.of_nat (length chunk) + 1 < 2 ^ 64 ->
  exists req',
    callback chunk 1 (Z.of_nat (length chunk)) req
    = Ok (req', Z.of_nat (length chunk)) /\
    body req' = Ok (s ++ upto_nul chunk) /\
    size req' = size req + Z.of_nat (length chunk) /\
    Z.of_nat (length (s ++ upto_nul chunk)) < size req'.
Proof.
  intros Hh Hin Hmax.
  assert (E1 : 1 * Z.of_nat (length chunk) = Z.of_nat (length chunk)) by lia.
  destruct (callback_step chunk 1 (Z.of_nat (length chunk)) req s
                          (upto_nul chunk) Hh)
    as (req' & Hcb & (Hb & _) & Hsz & _); try lia.
  { rewrite E1, Nat2Z.id. apply strndup_upto_nul. }
  rewrite E1 in *. exists req'. repeat split; auto.
  destruct Hh as (_ & _ & Hs).
  pose proof (upto_nul_shorter chunk Hin). rewrite length_app. lia.
Qed.

(** C1 (the code departs from the claim).  A chunk that carries a zero byte
    is not appended whole: of the three bytes [a], zero, [b] announced to
    [callback], only [a] reaches the body, while [size] grows by three and
    three is returned to the engine.  The next chunk is then written right
    after [a], so the body is [acd] where five bytes were received. *)
Theorem callback_zero_byte_chunk :
  forall url0 : option cstring,
    exists req1 req2,
      callback [x61; x00; x62] 1 3 (fresh url0) = Ok (req1, 3) /\
      body req1 = Ok (lit "a") /\ size req1 = 3 /\
      callback (lit "cd") 1 2 req1 = Ok (req2, 2) /\
      body req2 = Ok (lit "acd") /\ size req2 = 5.
Proof. intro url0. do 2 eexists. repeat split. Qed.

(** ** Arrays and loops *)

Lemma index_app {A : Type} (obj : string) (pre post : list A) (x : A) (i : Z) :
  i = Z.of_nat (length pre) ->
  index obj (pre ++ x :: post) i = Ok x.
Proof.
  intros ->. unfold index.
  destruct (Z.ltb_spec (Z.of_nat (length pre)) 0); [lia|].
  rewrite Nat2Z.id, nth_error_app2, Nat.sub_diag by lia. reflexivity.
Qed.

Lemma index_past_end {A : Type} (obj : string) (a : list A) (i : Z) :
  Z.of_nat (length a) <= i ->
  index obj a i = Fault (ReadOutOfBounds obj i).
Proof.
  intro H. unfold index.
  destruct (Z.ltb_spec i 0); [reflexivity|].
  destruct (nth_error a (Z.to_nat i)) eqn:E; [|reflexivity].
  assert (Hn : nth_error a (Z.to_nat i) <> None) by congruence.
  apply nth_error_Some in Hn. lia.
Qed.

Lemma foldM_app {A S : Type} (f : S -> A -> result S) (l1 l2 : list A) (s : S) :
  foldM f (l1 ++ l2) s = (s' <- foldM f l1 s ;; foldM f l2 s').
Proof.
  revert s; induction l1 as [|a l1 IH]; intro s; simpl; [reflexivity|].
  destruct (f s a); simpl; auto.
Qed.

Lemma evens_even (m : nat) :
  evens (2 * Z.of_nat m) = map (fun k => 2 * Z.of_nat k) (seq 0 m).
Proof.
  unfold evens.
  assert (E : (2 * Z.of_nat m + 1) / 2 = Z.of_nat m)
    by (symmetry; apply Z.div_unique with (r := 1); lia).
  now rewrite E, Nat2Z.id.
Qed.

Lemma evens_odd (m : nat) :
  evens (2 * Z.of_nat m + 1)
  = map (fun k => 2 * Z.of_nat k) (seq 0 m) ++ [2 * Z.of_nat m].
Proof.
  unfold evens.
  assert (E : (2 * Z.of_nat m + 1 + 1) / 2 = Z.of_nat (S m))
    by (symmetry; apply Z.div_unique with (r := 0); lia).
  rewrite E, Nat2Z.id, seq_S, map_app. reflexivity.
Qed.

Lemma total_length_nonneg (data : list cstring) : 0 <= total_length data.
Proof. induction data; simpl; unfold strlen in *; lia. Qed.

Lemma total_length_app (a b : list cstring) :
  total_length (a ++ b) = total_length a + total_length b.
Proof. induction a; simpl; lia. Qed.

(** The first loop of [url_encode] sums the lengths of the array. *)
Lemma sum_loop (post : list cstring) :
  forall (pre : list cstring) (acc : Z),
    0 <= acc -> acc + total_length post < 2 ^ 64 ->
    foldM (fun total_size i =>
             tmp <- index "data" (pre ++ post) i ;;
             let tmp_len := strlen tmp in
             Ok (size_t (total_size + tmp_len)))
          (map Z.of_nat (seq (length pre) (length post))) acc
    = Ok (acc + total_length post).
Proof.
  induction post as [|x post IH]; intros pre acc Hacc Hmax; simpl.
  - now rewrite Z.add_0_r.
  - change (total_length (x :: post)) with (strlen x + total_length post)
      in Hmax |- *.
    pose proof (total_length_nonneg post) as Hp.
    assert (Hx : 0 <= strlen x) by (unfold strlen; lia).
    rewrite index_app by reflexivity. cbn [bind result_Monad].
    rewrite size_t_small by lia.
    specialize (IH (pre ++ [x]) (acc + strlen x)).
    rewrite <- app_assoc, length_app, Nat.add_1_r in IH. cbn [app] in IH.
    etransitivity; [apply IH; lia | f_equal; lia].
Qed.

(** ** The joined text *)

Lemma even_length_inv (A : Type) (k : nat) (l : list A) :
  length l = (2 * S k)%nat ->
  exists a b l', l = a :: b :: l' /\ length l' = (2 * k)%nat.
Proof.
  destruct l as [|a [|b l']]; simpl; intro H; try lia.
  exists a, b, l'. split; [reflexivity|lia].
Qed.

Lemma pairs_snoc (k : nat) :
  forall (pre : list cstring) (key val : cstring),
    length pre = (2 * k)%nat ->
    pairs (pre ++ [key; val]) = pairs pre ++ [(key, val)].
Proof.
  induction k as [|k IH]; intros pre key val H.
  - destruct pre; [reflexivity|simpl in H; lia].
  - destruct (even_length_inv _ _ _ H) as (a & b & pre' & -> & H').
    simpl. now rewrite IH.
Qed.

Lemma pairs_nonempty (k : nat) (pre : list cstring) :
  length pre = (2 * S k)%nat -> pairs pre <> [].
Proof.
  intro H. destruct (even_length_inv _ _ _ H) as (a & b & pre' & -> & _).
  discriminate.
Qed.

Lemma intercalate_snoc (sep x : cstring) (l : list cstring) :
  l <> [] ->
  intercalate sep (l ++ [x]) = intercalate sep l ++ sep ++ x.
Proof.
  induction l as [|y l IH]; intro H; [contradiction|].
  destruct l as [|z l]; [reflexivity|].
  change (intercalate sep ((y :: z :: l) ++ [x]))
    with (y ++ sep ++ intercalate sep ((z :: l) ++ [x])).
  rewrite IH by discriminate.
  change (intercalate sep (y :: z :: l))
    with (y ++ sep ++ intercalate sep (z :: l)).
  now rewrite <- !app_assoc.
Qed.

Lemma joined_snoc (k : nat) (pre : list cstring) (key val : cstring) :
  length pre = (2 * k)%nat ->
  joined (pre ++ [key; val]) = joined pre ++ term_text k key val.
Proof.
  intro H. unfold joined. rewrite (pairs_snoc _ _ _ _ H), map_app. simpl map.
  destruct k as [|k].
  - destruct pre; [reflexivity|simpl in H; lia].
  - rewrite intercalate_snoc; [reflexivity|].
    pose proof (pairs_nonempty _ _ H) as Hne.
    destruct (pairs pre); [contradiction|discriminate].
Qed.

Lemma joined_grows (m : nat) :
  forall (k : nat) (pre post : list cstring),
    length pre = (2 * k)%nat -> length post = (2 * m)%nat ->
    (length (joined pre) <= length (joined (pre ++ post)))%nat.
Proof.
  induction m as [|m IH]; intros k pre post Hpre Hpost.
  - destruct post; [|simpl in Hpost; lia]. now rewrite app_nil_r.
  - destruct (even_length_inv _ _ _ Hpost) as (a & b & post' & -> & Hpost').
    change (pre ++ a :: b :: post') with (pre ++ [a; b] ++ post').
    rewrite app_assoc.
    specialize (IH (S k) (pre ++ [a; b]) post').
    rewrite (joined_snoc _ _ _ _ Hpre), length_app in IH.
    rewrite length_app in IH. simpl length in IH.
    assert (Hl : (length (joined pre) + length (term_text k a b)
                  <= length (joined ((pre ++ [a; b]) ++ post')))%nat)
      by (apply IH; lia).
    lia.
Qed.

Lemma joined_length (m : nat) :
  forall data : list cstring,
    length data = (2 * S m)%nat ->
    Z.of_nat (length (joined data)) = total_length data + 2 * Z.of_nat m + 1.
Proof.
  induction m as [|m IH]; intros data H;
    destruct (even_length_inv _ _ _ H) as (a & b & rest & -> & Hr).
  - destruct rest; [|simpl in Hr; lia].
    unfold joined; simpl. unfold strlen.
    rewrite !length_app. simpl. lia.
  - specialize (IH rest Hr).
    destruct (even_length_inv _ _ _ Hr) as (c & d & rest' & -> & _).
    change (joined (a :: b :: c :: d :: rest'))
      with ((a ++ lit "=" ++ b) ++ lit "&" ++ joined (c :: d :: rest')).
    change (total_length (a :: b :: c :: d :: rest'))
      with (strlen a + (strlen b + total_length (c :: d :: rest'))).
    unfold strlen in *. rewrite !length_app. simpl length. lia.
Qed.

Lemma nul_free_term_text (k : nat) (key val : cstring) :
  nul_free key -> nul_free val -> nul_free (term_text k key val).
Proof.
  intros Hk Hv.
  assert (Heq : nul_free (lit "=")) by (apply nul_freeb_spec; reflexivity).
  assert (Hamp : nul_free (lit "&")) by (apply nul_freeb_spec; reflexivity).
  destruct k; cbn [term_text]; repeat (apply nul_free_app; split); auto.
Qed.

(** ** [url_encode] *)

Lemma poke_start (obj : string) (b : buffer) (bs : list byte) :
  (length bs <= length b)%nat ->
  poke obj b 0 bs = Ok (map Some bs ++ skipn (length bs) b).
Proof.
  intro H. unfold poke. simpl.
  destruct (Nat.leb_spec (length bs) (length b)); [reflexivity|lia].
Qed.

Lemma snprintf_exact (obj : string) (b : buffer) (n : Z) (out : cstring) :
  n = Z.of_nat (length out) + 1 ->
  (length out + 1 <= length b)%nat ->
  snprintf obj b n out
  = Ok (map Some out ++ Some x00 :: skipn (length out + 1) b).
Proof.
  intros -> H. unfold snprintf.
  destruct (Z.eqb_spec (Z.of_nat (length out) + 1) 0); [lia|].
  replace (Z.to_nat (Z.of_nat (length out) + 1 - 1)) with (length out) by lia.
  rewrite firstn_all, poke_start by (rewrite length_app; simpl; lia).
  rewrite map_app, length_app, <- app_assoc. reflexivity.
Qed.

Lemma strncat_string (obj : string) (J t : cstring) (R : buffer) :
  nul_free J ->
  strncat obj (map Some J ++ Some x00 :: R) t (strlen t)
  = if (length t <=? length R)%nat
    then Ok (map Some (J ++ t) ++ Some x00 :: skipn (length t) R)
    else Fault (WriteOutOfBounds obj).
Proof.
  intro HJ. unfold strncat, c_str, strlen.
  rewrite (scan_string _ _ _ HJ). cbn [bind result_Monad].
  rewrite Nat2Z.id, firstn_all.
  destruct (Nat.leb_spec (length t) (length R)) as [Hfit|Hover].
  - rewrite poke_fits.
    + rewrite length_app, Nat.add_1_r. cbn [skipn].
      now rewrite !map_app, <- !app_assoc.
    + now rewrite length_map.
    + rewrite length_app. simpl. lia.
  - apply poke_overrun.
    rewrite !length_app, length_map. simpl. lia.
Qed.

Lemma index_in_range {A : Type} (obj : string) (a : list A) (i : Z) :
  0 <= i < Z.of_nat (length a) -> exists x, index obj a i = Ok x.
Proof.
  intro H. unfold index. destruct (Z.ltb_spec i 0); [lia|].
  destruct (nth_error a (Z.to_nat i)) as [x|] eqn:E; [now exists x|].
  apply nth_error_None in E. lia.
Qed.

(** The iteration of the pairing loop that starts at the last element of an
    array of odd length asks for the element after it. *)
Lemma pair_body_last (slack m : nat) (data : list cstring) (encoded : buffer) :
  length data = (2 * m + 1)%nat ->
  pair_body slack data encoded (2 * Z.of_nat m)
  = Fault (ReadOutOfBounds "data" (2 * Z.of_nat m + 1)).
Proof.
  intro H. unfold pair_body.
  destruct (index_in_range "data" data (2 * Z.of_nat m)) as [key ->]; [lia|].
  cbn [bind result_Monad].
  rewrite index_past_end by lia. reflexivity.
Qed.

Section UrlEncode.

Variable slack : nat.
Variable curl_easy_escape : cstring -> cstring.

(** The pairing loop on the pair number [k], with the buffer holding the
    text [J] followed by [R] more cells. *)
Lemma pair_body_step (k : nat) (pre post : list cstring)
      (key val J : cstring) (R : buffer) :
  length pre = (2 * k)%nat ->
  nul_free key -> nul_free val -> nul_free J ->
  strlen key + strlen val + 3 < 2 ^ 64 ->
  pair_body slack (pre ++ key :: val :: post)
            (map Some J ++ Some x00 :: R) (2 * Z.of_nat k)
  = if (length (term_text k key val) <=? length R)%nat
    then Ok (map Some (J ++ term_text k key val)
               ++ Some x00 :: skipn (length (term_text k key val)) R)
    else Fault (WriteOutOfBounds "encoded").
Proof.
  intros Hpre Hk Hv HJ Hmax.
  assert (Hkl : 0 <= strlen key) by (unfold strlen; lia).
  assert (Hvl : 0 <= strlen val) by (unfold strlen; lia).
  unfold pair_body.
  rewrite index_app by lia. cbn [bind result_Monad].
  change (pre ++ key :: val :: post) with (pre ++ [key] ++ val :: post).
  rewrite app_assoc, index_app by (rewrite length_app; cbn [length]; lia).
  cbn [bind result_Monad].
  assert (Ht : nul_free (term_text k key val))
    by now apply nul_free_term_text.
  assert (Hterm :
    (t <- (term <-
             (if 2 * Z.of_nat k =? 0
              then snprintf "term"
                     (vla slack (size_t (strlen key + strlen val +
                                         (if 2 * Z.of_nat k =? 0 then 2 else 3))))
                     (size_t (strlen key + strlen val +
                              (if 2 * Z.of_nat k =? 0 then 2 else 3)))
                     (key ++ lit "=" ++ val)
              else snprintf "term"
                     (vla slack (size_t (strlen key + strlen val +
                                         (if 2 * Z.of_nat k =? 0 then 2 else 3))))
                     (size_t (strlen key + strlen val +
                              (if 2 * Z.of_nat k =? 0 then 2 else 3)))
                     (lit "&" ++ key ++ lit "=" ++ val)) ;;
           c_str "term" term) ;; Ok t)
    = Ok (term_text k key val)).
  { destruct k as [|k].
    - change (2 * Z.of_nat 0 =? 0) with true. cbv iota.
      rewrite size_t_small by lia.
      rewrite snprintf_exact.
      + cbn [bind result_Monad]. unfold c_str.
        now rewrite (scan_string _ _ _ Ht).
      + unfold strlen. rewrite !length_app. simpl length. lia.
      + unfold vla. rewrite repeat_length.
        unfold strlen. rewrite !length_app. simpl length. lia.
    - destruct (Z.eqb_spec (2 * Z.of_nat (S k)) 0); [lia|].
      rewrite size_t_small by lia.
      rewrite snprintf_exact.
      + cbn [bind result_Monad]. unfold c_str.
        now rewrite (scan_string _ _ _ Ht).
      + unfold strlen. rewrite !length_app. simpl length. lia.
      + unfold vla. rewrite repeat_length.
        unfold strlen. rewrite !length_app. simpl length. lia. }
  cbn [bind result_Monad] in Hterm |- *.
  destruct (if 2 * Z.of_nat k =? 0 then _ else _) as [term|e];
    [|discriminate].
  cbn [bind result_Monad] in Hterm |- *.
  destruct (c_str "term" term) as [t|e]; [|discriminate].
  inversion Hterm; subst t.
  now apply strncat_string.
Qed.

Lemma pair_loop (m : nat) :
  forall (k : nat) (pre post tail : list cstring) (R : buffer),
    length pre = (2 * k)%nat -> length post = (2 * m)%nat ->
    Forall nul_free post -> nul_free (joined pre) ->
    total_length post + 3 < 2 ^ 64 ->
    foldM (pair_body slack (pre ++ post ++ tail))
          (map (fun j => 2 * Z.of_nat j) (seq k m))
          (map Some (joined pre) ++ Some x00 :: R)
    = if (length (joined (pre ++ post)) <=? length (joined pre) + length R)%nat
      then Ok (map Some (joined (pre ++ post)) ++ Some x00
                 :: skipn (length (joined (pre ++ post))
                           - length (joined pre)) R)
      else Fault (WriteOutOfBounds "encoded").
Proof.
  induction m as [|m IH]; intros k pre post tail R Hpre Hpost Hnf HJ Hmax.
  - destruct post; [|simpl in Hpost; lia].
    rewrite app_nil_r, Nat.sub_diag. simpl.
    destruct (Nat.leb_spec (length (joined pre)) (length (joined pre) + length R));
      [reflexivity|lia].
  - destruct (even_length_inv _ _ _ Hpost) as (key & val & post' & -> & Hpost').
    inversion Hnf as [|? ? Hkey Hnf1]; subst.
    inversion Hnf1 as [|? ? Hval Hnf']; subst.
    change (total_length (key :: val :: post'))
      with (strlen key + (strlen val + total_length post')) in Hmax.
    pose proof (total_length_nonneg post') as Hp.
    assert (Hkl : 0 <= strlen key) by (unfold strlen; lia).
    assert (Hvl : 0 <= strlen val) by (unfold strlen; lia).
    pose proof (joined_snoc k pre key val Hpre) as Hsnoc.
    pose proof (joined_grows m (S k) (pre ++ [key; val]) post') as Hgrow.
    rewrite length_app in Hgrow. simpl length in Hgrow.
    specialize (Hgrow ltac:(lia) Hpost').
    rewrite Hsnoc, length_app in Hgrow.
    cbn [seq map foldM app].
    rewrite pair_body_step by (auto; lia).
    replace (pre ++ key :: val :: post' ++ tail)
      with ((pre ++ [key; val]) ++ post' ++ tail)
      by (now rewrite <- app_assoc).
    replace (pre ++ key :: val :: post')
      with ((pre ++ [key; val]) ++ post')
      by (now rewrite <- app_assoc).
    set (t := term_text k key val) in *.
    set (J' := joined ((pre ++ [key; val]) ++ post')) in *.
    destruct (Nat.leb_spec (length t) (length R)) as [Hfit|Hover].
    + cbn [bind result_Monad]. rewrite <- Hsnoc.
      rewrite IH; auto; try lia.
      * rewrite Hsnoc, length_app, length_skipn, skipn_skipn. fold J'.
        destruct (Nat.leb_spec (length J')
                    (length (joined pre) + length t + (length R - length t)));
          destruct (Nat.leb_spec (length J') (length (joined pre) + length R));
          try lia; [|reflexivity].
        do 4 f_equal. lia.
      * rewrite length_app. simpl. lia.
      * rewrite Hsnoc. apply nul_free_app; split; auto.
        now apply nul_free_term_text.
    + cbn [bind result_Monad].
      destruct (Nat.leb_spec (length J') (length (joined pre) + length R));
        [lia|reflexivity].
Qed.

Lemma nul_free_joined (m : nat) :
  forall data : list cstring,
    length data = (2 * m)%nat -> Forall nul_free data ->
    nul_free (joined data).
Proof.
  induction m as [|m IH]; intros data H Hnf.
  - destruct data; [intros []|simpl in H; lia].
  - destruct (even_length_inv _ _ _ H) as (a & b & rest & -> & Hr).
    inversion Hnf as [|? ? Ha Hnf1]; subst.
    inversion Hnf1 as [|? ? Hb Hnf']; subst.
    specialize (IH rest Hr Hnf').
    assert (Hab : nul_free (a ++ lit "=" ++ b))
      by (apply (nul_free_term_text 0); assumption).
    destruct rest as [|c [|d rest']]; [exact Hab|simpl in Hr; lia|].
    change (joined (a :: b :: c :: d :: rest'))
      with ((a ++ lit "=" ++ b) ++ lit "&" ++ joined (c :: d :: rest')).
    apply nul_free_app; split; [exact Hab|].
    apply nul_free_app; split; [apply nul_freeb_spec; reflexivity|exact IH].
Qed.

(** What [url_encode] does with an even, non-empty array of C strings that
    are not all empty: the joined text needs [data_size] bytes more than
    [encoded] was declared with. *)
Lemma url_encode_run (m : nat) (curl : CURL) (data : list cstring) :
  length data = (2 * S m)%nat ->
  Forall nul_free data ->
  0 < total_length data ->
  total_length data + 3 < 2 ^ 64 ->
  url_encode slack curl_easy_escape curl data (2 * Z.of_nat (S m))
  = if (2 * S m <=? slack)%nat
    then Ok (curl_easy_escape (joined data))
    else Fault (WriteOutOfBounds "encoded").
Proof.
  intros Hlen Hnf Hpos Hmax.
  pose proof (joined_length m data Hlen) as HJ.
  pose proof (nul_free_joined _ data Hlen Hnf) as HJnf.
  unfold url_encode, range.
  replace (Z.to_nat (2 * Z.of_nat (S m))) with (length data) by lia.
  pose proof (sum_loop data [] 0 ltac:(lia) ltac:(lia)) as Hsum.
  cbn [app length] in Hsum. rewrite Hsum.
  cbn [bind result_Monad]. rewrite Z.add_0_l.
  unfold snprintf.
  destruct (Z.eqb_spec (total_length data) 0); [lia|].
  change (lit "") with (@nil byte). rewrite firstn_nil. cbn [app].
  rewrite poke_start
    by (unfold vla; rewrite repeat_length; cbn [length]; lia).
  cbn [bind result_Monad].
  rewrite evens_even.
  assert (Hskip : skipn (length [x00]) (vla slack (total_length data))
                  = repeat None (Z.to_nat (total_length data) + slack - 1)).
  { unfold vla.
    destruct (Z.to_nat (total_length data) + slack)%nat eqn:E; [lia|].
    simpl. now rewrite Nat.sub_0_r. }
  rewrite Hskip.
  pose proof (pair_loop (S m) 0 [] data []
              (repeat None (Z.to_nat (total_length data) + slack - 1))
              eq_refl Hlen Hnf) as Hloop.
cbn [app] in Hloop. rewrite app_nil_r in Hloop.
change (joined []) with (@nil byte) in Hloop.
  cbn [map app length] in Hloop |- *.
  rewrite Hloop; [|intros []|lia].
  rewrite repeat_length.
  destruct (Nat.leb_spec (length (joined data))
              (0 + (Z.to_nat (total_length data) + slack - 1)));
    destruct (Nat.leb_spec (2 * S m) slack); try lia.
  - cbn [bind result_Monad]. unfold c_str.
    now rewrite (scan_string _ _ _ HJnf).
  - reflexivity.
Qed.

(** An array of odd length: the pairs [P] and a last key [x] without a
    value.  When the text of the pairs fits in [encoded], the loop gets to
    the last key and asks for the element after it. *)
Lemma url_encode_odd_run (m : nat) (curl : CURL) (P : list cstring)
      (x : cstring) :
  length P = (2 * m)%nat ->
  Forall nul_free P ->
  0 < total_length (P ++ [x]) ->
  total_length (P ++ [x]) + 3 < 2 ^ 64 ->
  url_encode slack curl_easy_escape curl (P ++ [x]) (2 * Z.of_nat m + 1)
  = if (length (joined P) + 1 <=? Z.to_nat (total_length (P ++ [x])) + slack)%nat
    then Fault (ReadOutOfBounds "data" (2 * Z.of_nat m + 1))
    else Fault (WriteOutOfBounds "encoded").
Proof.
  intros Hlen Hnf Hpos Hmax.
  assert (Hlen' : length (P ++ [x]) = (2 * m + 1)%nat)
    by (rewrite length_app; simpl; lia).
  pose proof (total_length_nonneg P) as HP.
  assert (Hx : 0 <= strlen x) by (unfold strlen; lia).
  assert (HPx : total_length (P ++ [x]) = total_length P + strlen x)
    by (rewrite total_length_app; simpl; lia).
  unfold url_encode, range.
  replace (Z.to_nat (2 * Z.of_nat m + 1)) with (length (P ++ [x])) by lia.
  pose proof (sum_loop (P ++ [x]) [] 0 ltac:(lia) ltac:(lia)) as Hsum.
  cbn [app length] in Hsum. rewrite Hsum.
  cbn [bind result_Monad]. rewrite Z.add_0_l.
  unfold snprintf.
  destruct (Z.eqb_spec (total_length (P ++ [x])) 0); [lia|].
  change (lit "") with (@nil byte). rewrite firstn_nil. cbn [app].
  rewrite poke_start
    by (unfold vla; rewrite repeat_length; cbn [length]; lia).
  cbn [bind result_Monad].
  rewrite evens_odd, foldM_app.
  assert (Hskip : skipn (length [x00]) (vla slack (total_length (P ++ [x])))
                  = repeat None (Z.to_nat (total_length (P ++ [x])) + slack - 1)).
  { unfold vla.
    destruct (Z.to_nat (total_length (P ++ [x])) + slack)%nat eqn:E; [lia|].
    simpl. now rewrite Nat.sub_0_r. }
  rewrite Hskip.
  pose proof (pair_loop m 0 [] P [x]
                (repeat None (Z.to_nat (total_length (P ++ [x])) + slack - 1))
                eq_refl Hlen Hnf) as Hloop.
  cbn [app] in Hloop. change (joined []) with (@nil byte) in Hloop.
  cbn [map app length] in Hloop |- *.
  rewrite Hloop; [|intros []|lia].
  rewrite repeat_length.
  destruct (Nat.leb_spec (length (joined P))
              (0 + (Z.to_nat (total_length (P ++ [x])) + slack - 1)));
    destruct (Nat.leb_spec (length (joined P) + 1)
                (Z.to_nat (total_length (P ++ [x])) + slack)); try lia.
  - cbn [bind result_Monad foldM].
    now rewrite (pair_body_last slack m (P ++ [x]) _ Hlen').
  - reflexivity.
Qed.

End UrlEncode.

(** With room for [data_size] more bytes the loop assembles the joined text
    and the whole of it is escaped. *)
Corollary url_encode_with_room (slack m : nat) (escape : cstring -> cstring)
          (curl : CURL) (data : list cstring) :
  length data = (2 * S m)%nat ->
  Forall nul_free data ->
  0 < total_length data ->
  total_length data + 3 < 2 ^ 64 ->
  (2 * S m <= slack)%nat ->
  url_encode slack escape curl data (2 * Z.of_nat (S m))
  = Ok (escape (joined data)).
Proof.
  intros Hlen Hnf Hpos Hmax Hroom.
  rewrite (url_encode_run slack escape m curl data Hlen Hnf Hpos Hmax).
  destruct (Nat.leb_spec (2 * S m) slack); [reflexivity|lia].
Qed.

(** Under ISO C, where an array has no room beyond its declared size, the
    loop writes past the end of [encoded] for every such input. *)
Corollary url_encode_iso_c (m : nat) (escape : cstring -> cstring)
          (curl : CURL) (data : list cstring) :
  length data = (2 * S m)%nat ->
  Forall nul_free data ->
  0 < total_length data ->
  total_length data + 3 < 2 ^ 64 ->
  url_encode 0 escape curl data (2 * Z.of_nat (S m))
  = Fault (WriteOutOfBounds "encoded").
Proof.
  intros Hlen Hnf Hpos Hmax.
  rewrite (url_encode_run 0 escape m curl data Hlen Hnf Hpos Hmax).
  reflexivity.
Qed.

Lemma percent_encode_app (s t : cstring) :
  percent_encode (s ++ t) = percent_encode s ++ percent_encode t.
Proof. unfold percent_encode. apply flat_map_app. Qed.

(** The delimiters the loop inserts are escaped with the rest. *)
Lemma percent_encode_pair (k v : cstring) :
  percent_encode (joined [k; v])
  = percent_encode k ++ lit "%3D" ++ percent_encode v.
Proof.
  unfold joined. cbn [pairs map intercalate fst snd].
  now rewrite !percent_encode_app.
Qed.

Lemma percent_encode_ampersand : percent_encode (lit "&") = lit "%26".
Proof. reflexivity. Qed.

Example url_encode_name_a_b :
  url_encode 2 percent_encode curl_easy_init [lit "name"; lit "a b"] 2
  = Ok (lit "name%3Da%20b").
Proof. reflexivity. Qed.

(** C2 (the code departs from the claim).  For the array [a], [b] the joined
    text [a=b] and its terminator take four bytes, but [encoded] is declared
    with the summed lengths of the strings, two bytes: [strncat] writes past
    its end and the function yields no string.  The escaping routine is
    never reached. *)
Theorem url_encode_overruns_encoded :
  forall (escape : cstring -> cstring) (curl : CURL),
    url_encode 0 escape curl [lit "a"; lit "b"] 2
    = Fault (WriteOutOfBounds "encoded").
Proof. intros escape curl. reflexivity. Qed.

(** C4 (the code departs from the claim).  With [data_size = 0] the array
    [encoded] has no element, [snprintf] is told to store nothing and the
    loop does not run, so the [strlen] that follows reads a byte that was
    never written: outside the array under ISO C, indeterminate in its
    padding otherwise.  No empty string is produced. *)
Theorem url_encode_empty_input :
  forall (slack : nat) (escape : cstring -> cstring) (curl : CURL)
         (data : list cstring),
    url_encode slack escape curl data 0
    = Fault (match slack with
             | O => ReadOutOfBounds "encoded" 0
             | S _ => ReadIndeterminate "encoded" 0
             end).
Proof. intros [|slack] escape curl data; reflexivity. Qed.

(** ** [user_agent] *)

Lemma int_small (z : Z) : - 2 ^ 31 <= z < 2 ^ 31 -> int z = z.
Proof. intro H. unfold int. rewrite Z.mod_small; lia. Qed.

Lemma user_agent_run (sysname release : cstring) :
  nul_free sysname -> nul_free release ->
  strlen sysname + strlen release + 18 < 2 ^ 31 ->
  exists ua : buffer,
    user_agent sysname release = Ok ua /\
    c_str "ua" ua = Ok (user_agent_text sysname release).
Proof.
  intros Hs Hr Hmax.
  assert (Hsl : 0 <= strlen sysname) by (unfold strlen; lia).
  assert (Hrl : 0 <= strlen release) by (unfold strlen; lia).
  unfold user_agent.
  change (strlen (lit "librequests/0.1")) with 15.
  cbv zeta. change (3 + 15) with 18.
  rewrite (int_small 18) by lia.
  rewrite (int_small (18 + strlen sysname)) by lia.
  rewrite (int_small (18 + strlen sysname + strlen release)) by lia.
  rewrite size_t_small by lia.
  fold (user_agent_text sysname release).
  assert (Hlen : Z.of_nat (length (user_agent_text sysname release))
                 = 17 + strlen sysname + strlen release).
  { unfold user_agent_text, strlen. rewrite !length_app.
    change (length (lit "librequests/0.1")) with 15%nat.
    change (length (lit " ")) with 1%nat.
    change (length (lit "/")) with 1%nat. lia. }
  rewrite snprintf_exact.
  - eexists; split; [reflexivity|]. unfold c_str.
    apply scan_string. unfold user_agent_text.
    repeat (apply nul_free_app; split); auto;
      apply nul_freeb_spec; reflexivity.
  - lia.
  - unfold malloc. rewrite repeat_length. lia.
Qed.

(** ** The executors *)

Lemma callback_frame (content : list byte) (size0 nmemb : Z)
      (req req' : REQ) (v : Z) :
  callback content size0 nmemb req = Ok (req', v) ->
  url req' = url req /\ code req' = code req /\ v = size_t (size0 * nmemb).
Proof.
  unfold callback.
  destruct (strndup _ _ _) as [r|e]; [|discriminate]. cbn [bind result_Monad].
  destruct (strcat _ _ _) as [t|e]; [|discriminate]. cbn [bind result_Monad].
  intro H; inversion H; subst. auto.
Qed.

Lemma deliver_frame (cs : list (list byte)) :
  forall (req mid : REQ) (b : bool),
    deliver cs req = Ok (mid, b) ->
    url mid = url req /\ code mid = code req.
Proof.
  induction cs as [|c cs IH]; intros req mid b; simpl.
  - intro H; inversion H; subst. auto.
  - destruct (callback c 1 (Z.of_nat (length c)) req) as [[req1 v]|e] eqn:E;
      [|discriminate].
    destruct (callback_frame _ _ _ _ _ _ E) as (Hu & Hc & _).
    destruct (v =? Z.of_nat (length c)).
    + intro H. destruct (IH _ _ _ H). split; congruence.
    + intro H; inversion H; subst. auto.
Qed.

Ltac run :=
  cbn [bind ret exec_Monad result_Monad lift assert Z.eqb Pos.eqb orb].

(** Both values of the method flag, with the results of the steps that were
    analysed beforehand. *)
Ltac pt_case :=
  let pf := fresh "pf" in
  let log := fresh "log" in
  repeat match goal with
         | H : _ = Ok _ |- _ => progress cbn [bind result_Monad] in H
         | H : _ = Fault _ |- _ => progress cbn [bind result_Monad] in H
         end;
  intros pf log [-> | ->]; run;
  repeat (match goal with
          | H : _ = Ok _ |- _ => rewrite H
          | H : _ = Fault _ |- _ => rewrite H
          end; run);
  reflexivity.

Section Executors.

Variable slack : nat.
Variable escape : cstring -> cstring.
Variable engine : CURL -> outcome.
Variables sysname release : cstring.

Lemma finish_shape (c : CURL) (req : REQ) (log : list CURL) :
  CURLOPT_WRITEFUNCTION c = Some the_callback ->
  CURLOPT_WRITEDATA c = true ->
  finish engine c req log
  = (log ++ [c],
     match deliver (chunks (engine c)) req with
     | Ok (mid, _) =>
         Ok (c, {| code := RESPONSE_CODE (engine c); url := url mid;
                   text := text mid; size := size mid |})
     | Fault e => Fault e
     end).
Proof.
  intros Hf Hd. unfold finish, curl_easy_perform. cbn [bind exec_Monad].
  rewrite Hf, Hd.
  destruct (deliver (chunks (engine c)) req) as [[mid b]|e]; reflexivity.
Qed.

Lemma requests_get_shape (curl : CURL) (req : REQ) (log : list CURL) :
  requests_get engine curl req log
  = match url req with
    | None => (log, Fault (AssertionFailed "ERROR: No URL provided"))
    | Some _ =>
        finish engine
          (set_WRITEDATA (set_WRITEFUNCTION the_callback (common_opt curl req)))
          req log
    end.
Proof. unfold requests_get. destruct (url req); reflexivity. Qed.

(** Either [requests_pt] stops before any transfer, for a reason that does
    not depend on the method flag, or it runs one transfer with a handle
    that depends on the flag through [method] alone. *)
Lemma requests_pt_shape (curl : CURL) (req : REQ)
      (data : option (list cstring)) (data_size : Z)
      (headers : option (list cstring)) (headers_size : Z) :
  (exists e, forall put_flag log,
      put_flag = 0 \/ put_flag = 1 ->
      requests_pt slack escape engine sysname release curl req
        data data_size headers headers_size put_flag log
      = (log, Fault e))
  \/
  (exists ua c0,
      (exists buf, user_agent sysname release = Ok buf /\
                   c_str "ua" buf = Ok ua) /\
      match data with
      | Some d => exists enc,
                  url_encode slack escape curl d data_size = Ok enc /\
                  CURLOPT_POSTFIELDS c0 = Some enc
      | None => CURLOPT_POSTFIELDS c0 = CURLOPT_POSTFIELDS curl
      end /\
      CURLOPT_POST c0 = CURLOPT_POST curl /\
      CURLOPT_CUSTOMREQUEST c0 = CURLOPT_CUSTOMREQUEST curl /\
      forall put_flag log,
        put_flag = 0 \/ put_flag = 1 ->
        requests_pt slack escape engine sysname release curl req
          data data_size headers headers_size put_flag log
        = finish engine
            (set_USERAGENT ua (method put_flag (common_opt c0 req)))
            req log).
Proof.
  unfold requests_pt.
  destruct (user_agent sysname release) as [buf|e] eqn:Eua.
  2:{ left. exists e. intros pf log _. reflexivity. }
  destruct (c_str "ua" buf) as [ua|e] eqn:Ecs.
  - destruct data as [d|].
    + destruct (Z.rem data_size 2 =? 0) eqn:Eeven.
      2:{ left. eexists. pt_case. }
      destruct (url_encode slack escape curl d data_size) as [enc|e] eqn:Eenc.
      2:{ left. exists e. pt_case. }
      destruct headers as [h|].
      * destruct (foldM (fun slist i =>
                           h0 <- index "headers" h i ;;
                           Ok (curl_slist_append slist h0))
                        (range headers_size) None) as [sl|e] eqn:Eh.
        -- right. exists ua, (set_HTTPHEADER sl (set_POSTFIELDS enc curl)).
           split; [now exists buf|]. split; [now exists enc|].
           split; [reflexivity|]. split; [reflexivity|].
           pt_case.
        -- left. exists e.
           pt_case.
      * right. exists ua, (set_POSTFIELDS enc curl).
        split; [now exists buf|]. split; [now exists enc|].
        split; [reflexivity|]. split; [reflexivity|].
        pt_case.
    + destruct headers as [h|].
      * destruct (foldM (fun slist i =>
                           h0 <- index "headers" h i ;;
                           Ok (curl_slist_append slist h0))
                        (range headers_size)
                        (curl_slist_append None (lit "Content-Length: 0")))
          as [sl|e] eqn:Eh.
        -- right. exists ua, (set_HTTPHEADER sl curl).
           split; [now exists buf|].
           repeat (split; [reflexivity|]).
           pt_case.
        -- left. exists e.
           pt_case.
      * right.
        exists ua, (set_HTTPHEADER
                      (curl_slist_append None (lit "Content-Length: 0")) curl).
        split; [now exists buf|].
        repeat (split; [reflexivity|]).
        pt_case.
  - left.
    destruct data as [d|].
    + destruct (Z.rem data_size 2 =? 0) eqn:Eeven.
      2:{ eexists. pt_case. }
      destruct (url_encode slack escape curl d data_size) as [enc|e'] eqn:Eenc.
      2:{ exists e'. pt_case. }
      destruct headers as [h|].
      * destruct (foldM (fun slist i =>
                           h0 <- index "headers" h i ;;
                           Ok (curl_slist_append slist h0))
                        (range headers_size) None) as [sl|e'] eqn:Eh.
        -- exists e.
           pt_case.
        -- exists e'.
           pt_case.
      * exists e.
        pt_case.
    + destruct headers as [h|].
      * destruct (foldM (fun slist i =>
                           h0 <- index "headers" h i ;;
                           Ok (curl_slist_append slist h0))
                        (range headers_size)
                        (curl_slist_append None (lit "Content-Length: 0")))
          as [sl|e'] eqn:Eh.
        -- exists e.
           pt_case.
        -- exists e'.
           pt_case.
      * exists e. pt_case.
Qed.

Lemma finish_log (c : CURL) (req : REQ) (log : list CURL) :
  fst (finish engine c req log) = log ++ [c].
Proof.
  unfold finish, curl_easy_perform. cbn [bind exec_Monad].
  destruct (CURLOPT_WRITEFUNCTION c) as [[]|];
    destruct (CURLOPT_WRITEDATA c); try reflexivity.
  destruct (deliver (chunks (engine c)) req) as [[mid b]|e]; reflexivity.
Qed.

Lemma finish_framed (c : CURL) (req : REQ) (log log' : list CURL)
      (c' : CURL) (req' : REQ) :
  CURLOPT_WRITEFUNCTION c = Some the_callback ->
  CURLOPT_WRITEDATA c = true ->
  finish engine c req log = (log', Ok (c', req')) ->
  c' = c /\ framed engine req c req'.
Proof.
  intros Hf Hd. rewrite (finish_shape c req log Hf Hd).
  destruct (deliver (chunks (engine c)) req) as [[mid b]|e] eqn:Ed;
    [|discriminate].
  intro H; inversion H; subst.
  destruct (deliver_frame _ _ _ _ Ed) as [Hu Hc].
  split; [reflexivity|]. unfold framed. cbn [url code text size].
  split; [assumption|]. split; [reflexivity|].
  exists mid, b. auto.
Qed.

(** A transfer on a context that [holds] a string always completes. *)
Lemma finish_run (c : CURL) (req : REQ) (s : cstring) (log : list CURL) :
  CURLOPT_WRITEFUNCTION c = Some the_callback ->
  CURLOPT_WRITEDATA c = true ->
  holds req s ->
  size req + chunk_bytes (chunks (engine c)) + 1 < 2 ^ 64 ->
  exists req',
    finish engine c req log = (log ++ [c], Ok (c, req')) /\
    code req' = RESPONSE_CODE (engine c) /\
    url req' = url req /\
    body req' = Ok (s ++ concat (map upto_nul (chunks (engine c)))) /\
    size req' = size req + chunk_bytes (chunks (engine c)).
Proof.
  intros Hf Hd Hh Hmax. rewrite (finish_shape c req log Hf Hd).
  destruct (deliver_run (chunks (engine c)) req s Hh Hmax)
    as (mid & Hdel & (Hb & _) & Hsz & _ & Hu).
  rewrite Hdel. eexists; split; [reflexivity|].
  cbn [code url size]. repeat split; auto.
Qed.

Lemma headers_loop (n : nat) :
  forall (pre post : list cstring) (sl : option (list cstring)),
    (n <= length post)%nat ->
    foldM (fun slist i =>
             h <- index "headers" (pre ++ post) i ;;
             Ok (curl_slist_append slist h))
          (map Z.of_nat (seq (length pre) n)) sl
    = Ok (fold_left curl_slist_append (firstn n post) sl).
Proof.
  induction n as [|n IH]; intros pre post sl Hn; [reflexivity|].
  destruct post as [|x post]; [simpl in Hn; lia|].
  cbn [seq map foldM firstn fold_left].
  rewrite index_app by reflexivity. cbn [bind result_Monad].
  specialize (IH (pre ++ [x]) post (curl_slist_append sl x)).
  rewrite <- app_assoc, length_app, Nat.add_1_r in IH. cbn [app] in IH.
  apply IH. simpl in Hn. lia.
Qed.

Lemma slist_extend (l l0 : list cstring) :
  fold_left curl_slist_append l (Some l0) = Some (l0 ++ l).
Proof.
  revert l0; induction l as [|x l IH]; intro l0; simpl.
  - now rewrite app_nil_r.
  - rewrite IH, <- app_assoc. reflexivity.
Qed.

(** [requests_pt] without body data. *)
Lemma requests_pt_no_data_run (curl : CURL) (req : REQ) (data_size : Z)
      (headers : option (list cstring)) (headers_size put_flag : Z)
      (log : list CURL) :
  nul_free sysname -> nul_free release ->
  strlen sysname + strlen release + 18 < 2 ^ 31 ->
  put_flag = 0 \/ put_flag = 1 ->
  match headers with
  | Some h => headers_size <= Z.of_nat (length h)
  | None => True
  end ->
  requests_pt slack escape engine sysname release curl req
    None data_size headers headers_size put_flag log
  = finish engine
      (set_USERAGENT (user_agent_text sysname release)
         (method put_flag
            (common_opt
               (set_HTTPHEADER
                  (Some (lit "Content-Length: 0" :: custom headers headers_size))
                  curl) req)))
      req log.
Proof.
  intros Hs Hr Hmax Hpf Hh.
  destruct (user_agent_run sysname release Hs Hr Hmax) as (buf & Eua & Ecs).
  unfold requests_pt. rewrite Eua.
  destruct headers as [h|].
  - pose proof (headers_loop (Z.to_nat headers_size) [] h
                  (curl_slist_append None (lit "Content-Length: 0"))
                  ltac:(lia)) as Eh.
    cbn [app length] in Eh. fold (range headers_size) in Eh.
    change (fold_left curl_slist_append (firstn (Z.to_nat headers_size) h)
              (curl_slist_append None (lit "Content-Length: 0")))
      with (fold_left curl_slist_append (firstn (Z.to_nat headers_size) h)
              (Some [lit "Content-Length: 0"])) in Eh.
    rewrite slist_extend in Eh.
    revert put_flag log Hpf. pt_case.
  - revert put_flag log Hpf. pt_case.
Qed.

(** [requests_pt] with body data that [url_encode] turns into [enc]. *)
Lemma requests_pt_data_run (curl : CURL) (req : REQ)
      (d : list cstring) (enc : cstring) (data_size : Z)
      (headers : option (list cstring)) (headers_size put_flag : Z)
      (log : list CURL) :
  nul_free sysname -> nul_free release ->
  strlen sysname + strlen release + 18 < 2 ^ 31 ->
  put_flag = 0 \/ put_flag = 1 ->
  match headers with
  | Some h => headers_size <= Z.of_nat (length h)
  | None => True
  end ->
  Z.rem data_size 2 = 0 ->
  url_encode slack escape curl d data_size = Ok enc ->
  requests_pt slack escape engine sysname release curl req
    (Some d) data_size headers headers_size put_flag log
  = finish engine
      (set_USERAGENT (user_agent_text sysname release)
         (method put_flag
            (common_opt
               (match headers with
                | Some _ =>
                    set_HTTPHEADER
                      (fold_left curl_slist_append
                                 (custom headers headers_size) None)
                      (set_POSTFIELDS enc curl)
                | None => set_POSTFIELDS enc curl
                end) req)))
      req log.
Proof.
  intros Hs Hr Hmax Hpf Hh Heven Eenc.
  destruct (user_agent_run sysname release Hs Hr Hmax) as (buf & Eua & Ecs).
  apply Z.eqb_eq in Heven.
  unfold requests_pt. rewrite Eua, Heven.
  destruct headers as [h|].
  - pose proof (headers_loop (Z.to_nat headers_size) [] h None
                  ltac:(lia)) as Eh.
    cbn [app length] in Eh. fold (range headers_size) in Eh.
    revert put_flag log Hpf. pt_case.
  - revert put_flag log Hpf. pt_case.
Qed.

End Executors.

(** ** No assertion in [url_encode] *)

Lemma index_fault {A : Type} (obj : string) (a : list A) (i : Z) (e : fault) :
  index obj a i = Fault e -> memory_fault e.
Proof.
  unfold index. destruct (i <? 0).
  - intro H; inversion H; exact I.
  - destruct (nth_error a (Z.to_nat i)); [discriminate|].
    intro H; inversion H; exact I.
Qed.

Lemma poke_fault (obj : string) (b : buffer) (off : nat) (bs : list byte)
      (e : fault) :
  poke obj b off bs = Fault e -> memory_fault e.
Proof.
  unfold poke. destruct (_ <=? _)%nat; [discriminate|].
  intro H; inversion H; exact I.
Qed.

Lemma scan_fault (obj : string) (b : buffer) :
  forall (i : Z) (e : fault), scan obj i b = Fault e -> memory_fault e.
Proof.
  induction b as [|[c|] b IH]; intros i e; simpl.
  - intro H; inversion H; exact I.
  - destruct (Byte.eqb c x00); [discriminate|].
    destruct (scan obj (i + 1) b) as [s|e'] eqn:E; simpl; [discriminate|].
    intro H; inversion H; subst. eapply IH; eassumption.
  - intro H; inversion H; exact I.
Qed.

Lemma snprintf_fault (obj : string) (b : buffer) (n : Z) (out : cstring)
      (e : fault) :
  snprintf obj b n out = Fault e -> memory_fault e.
Proof.
  unfold snprintf. destruct (n =? 0); [discriminate|]. apply poke_fault.
Qed.

Lemma strncat_fault (obj : string) (b : buffer) (src : cstring) (n : Z)
      (e : fault) :
  strncat obj b src n = Fault e -> memory_fault e.
Proof.
  unfold strncat, c_str.
  destruct (scan obj 0 b) as [s|e'] eqn:E; simpl.
  - apply poke_fault.
  - intro H; inversion H; subst. eapply scan_fault; eassumption.
Qed.

Lemma foldM_fault {A S : Type} (f : S -> A -> result S) (l : list A) :
  (forall s a e, f s a = Fault e -> memory_fault e) ->
  forall s e, foldM f l s = Fault e -> memory_fault e.
Proof.
  intro Hf. induction l as [|a l IH]; intros s e; simpl; [discriminate|].
  destruct (f s a) as [s'|e'] eqn:E; simpl.
  - apply IH.
  - intro H; inversion H; subst. eapply Hf; eassumption.
Qed.

Lemma pair_body_fault (slack : nat) (data : list cstring) (encoded : buffer)
      (i : Z) (e : fault) :
  pair_body slack data encoded i = Fault e -> memory_fault e.
Proof.
  unfold pair_body.
  destruct (index "data" data i) as [key|e1] eqn:E1; simpl;
    [|intro H; inversion H; subst; eapply index_fault; eassumption].
  destruct (index "data" data (i + 1)) as [val|e2] eqn:E2; simpl;
    [|intro H; inversion H; subst; eapply index_fault; eassumption].
  match goal with
  | |- match ?X with _ => _ end = _ -> _ => destruct X as [term|e3] eqn:E3
  end.
  - destruct (c_str "term" term) as [t|e4] eqn:E4.
    + apply strncat_fault.
    + intro H; inversion H; subst. eapply scan_fault; eassumption.
  - intro H; inversion H; subst.
    destruct (i =? 0); eapply snprintf_fault; eassumption.
Qed.

Lemma url_encode_fault (slack : nat) (escape : cstring -> cstring)
      (curl : CURL) (data : list cstring) (data_size : Z) (e : fault) :
  url_encode slack escape curl data data_size = Fault e -> memory_fault e.
Proof.
  unfold url_encode. cbn [bind result_Monad].
  match goal with
  | |- match ?X with _ => _ end = _ -> _ => destruct X as [total|e1] eqn:E1
  end.
  2:{ intro H; inversion H; subst. revert E1. apply foldM_fault.
      intros s a e0.
      destruct (index "data" data a) eqn:Ei; [discriminate|].
      intro H0; inversion H0; subst. eapply index_fault; eassumption. }
  destruct (snprintf "encoded" (vla slack total) total (lit "")) as [enc|e2] eqn:E2;
    cbn [bind result_Monad].
  2:{ intro H; inversion H; subst. eapply snprintf_fault; eassumption. }
  destruct (foldM (pair_body slack data) (evens data_size) enc) as [enc'|e3] eqn:E3;
    cbn [bind result_Monad].
  2:{ intro H; inversion H; subst. revert E3. apply foldM_fault.
      intros s a e0. apply pair_body_fault. }
  destruct (c_str "encoded" enc') as [s|e4] eqn:E4; cbn [bind result_Monad].
  - discriminate.
  - intro H; inversion H; subst. eapply scan_fault; eassumption.
Qed.

Lemma rem_odd (m : nat) : Z.rem (2 * Z.of_nat m + 1) 2 = 1.
Proof.
  rewrite Z.rem_mod_nonneg by lia.
  symmetry. apply Z.mod_unique with (q := Z.of_nat m); lia.
Qed.

(** ** The claims about the executors *)

Lemma pt_handle_header (ua : cstring) (put_flag : Z) (c0 : CURL) (req : REQ) :
  CURLOPT_HTTPHEADER (pt_handle ua put_flag c0 req) = CURLOPT_HTTPHEADER c0.
Proof. unfold pt_handle, method. destruct (put_flag =? 0); reflexivity. Qed.

Lemma pt_handle_write (ua : cstring) (put_flag : Z) (c0 : CURL) (req : REQ) :
  CURLOPT_WRITEFUNCTION (pt_handle ua put_flag c0 req) = Some the_callback /\
  CURLOPT_WRITEDATA (pt_handle ua put_flag c0 req) = true.
Proof. unfold pt_handle, method. destruct (put_flag =? 0); split; reflexivity. Qed.

Lemma pt_handle_agent (ua : cstring) (put_flag : Z) (c0 : CURL) (req : REQ) :
  CURLOPT_USERAGENT (pt_handle ua put_flag c0 req) = Some ua.
Proof. unfold pt_handle, method. destruct (put_flag =? 0); reflexivity. Qed.

(** C3 (amended).  For a POST or PUT call the library puts
    [Content-Length: 0] at the head of the outgoing header list exactly when
    the caller supplies no body data, whether or not custom headers are
    supplied: the custom headers follow it in input order.  When body data
    is supplied the library adds no such header: the list holds the custom
    headers alone, or is left as the handle had it when there are none. *)
Theorem content_length_added_without_data :
  forall (slack : nat) (escape : cstring -> cstring) (engine : CURL -> outcome)
         (sysname release : cstring) (curl : CURL) (req : REQ)
         (data_size : Z) (headers : option (list cstring))
         (headers_size put_flag : Z) (log : list CURL),
    nul_free sysname -> nul_free release ->
    strlen sysname + strlen release + 18 < 2 ^ 31 ->
    put_flag = 0 \/ put_flag = 1 ->
    match headers with
    | Some h => headers_size <= Z.of_nat (length h)
    | None => True
    end ->
    map CURLOPT_HTTPHEADER
        (fst (requests_pt slack escape engine sysname release curl req
                None data_size headers headers_size put_flag log))
    = map CURLOPT_HTTPHEADER log
      ++ [Some (lit "Content-Length: 0" :: custom headers headers_size)]
    /\
    forall (d : list cstring) (enc : cstring),
      Z.rem data_size 2 = 0 ->
      url_encode slack escape curl d data_size = Ok enc ->
      map CURLOPT_HTTPHEADER
          (fst (requests_pt slack escape engine sysname release curl req
                  (Some d) data_size headers headers_size put_flag log))
      = map CURLOPT_HTTPHEADER log
        ++ [match headers with
            | Some _ => fold_left curl_slist_append
                          (custom headers headers_size) None
            | None => CURLOPT_HTTPHEADER curl
            end].
Proof.
  intros slack escape engine sysname release curl req data_size headers
         headers_size put_flag log Hs Hr Hmax Hpf Hh.
  split.
  - rewrite requests_pt_no_data_run by assumption.
    rewrite finish_log, map_app. cbn [map].
    fold (pt_handle (user_agent_text sysname release) put_flag
            (set_HTTPHEADER
               (Some (lit "Content-Length: 0" :: custom headers headers_size))
               curl) req).
    now rewrite pt_handle_header.
  - intros d enc Heven Henc.
    rewrite (requests_pt_data_run slack escape engine sysname release curl req
               d enc) by assumption.
    rewrite finish_log, map_app. cbn [map].
    match goal with
    | |- context [set_USERAGENT ?ua (method ?pf (common_opt ?c ?r))] =>
        fold (pt_handle ua pf c r)
    end.
    rewrite pt_handle_header. destruct headers; reflexivity.
Qed.

(** C5 (amended).  Calling the GET executor with an absent URL fails the
    assertion before any engine call.  A URL that is present is not looked
    at: whatever its text, the empty string included, the handle is
    configured and one transfer is run. *)
Theorem requests_get_asserts_url_present :
  forall (engine : CURL -> outcome) (curl : CURL)
         (code0 : Z) (text0 : buffer) (size0 : Z) (log : list CURL),
    requests_get engine curl (mkREQ code0 None text0 size0) log
    = (log, Fault (AssertionFailed "ERROR: No URL provided"))
    /\
    forall u : cstring,
      fst (requests_get engine curl (mkREQ code0 (Some u) text0 size0) log)
      = log ++ [get_handle curl (mkREQ code0 (Some u) text0 size0)]
      /\ CURLOPT_URL (get_handle curl (mkREQ code0 (Some u) text0 size0))
         = Some u.
Proof.
  intros engine curl code0 text0 size0 log. split; [reflexivity|].
  intro u. rewrite requests_get_shape. cbn [url].
  rewrite finish_log. split; reflexivity.
Qed.

(** C6 (amended).  The status code is 0 from [requests_init] on, and the
    chunks of a transfer never change it.  Every executor invocation that
    gets to its transfer, [requests_get] as well as [requests_pt] with or
    without body data, with or without custom headers and for either method
    (so [requests_post], [requests_put] and their [_headers] variants),
    completes and stores the code the engine reports, whatever
    [curl_easy_perform] returned: after a failed transfer the status code is
    0 only if the engine reports 0, and the text accumulated before the
    failure follows the old body. *)
Theorem status_code_is_engine_report :
  forall (slack : nat) (escape : cstring -> cstring) (engine : CURL -> outcome)
         (sysname release : cstring) (curl : CURL) (req : REQ) (s : cstring)
         (data : option (list cstring)) (data_size : Z)
         (headers : option (list cstring)) (headers_size put_flag : Z)
         (log : list CURL),
    nul_free sysname -> nul_free release ->
    strlen sysname + strlen release + 18 < 2 ^ 31 ->
    put_flag = 0 \/ put_flag = 1 ->
    match headers with
    | Some h => headers_size <= Z.of_nat (length h)
    | None => True
    end ->
    match data with
    | Some d => Z.rem data_size 2 = 0 /\
                exists enc, url_encode slack escape curl d data_size = Ok enc
    | None => True
    end ->
    holds req s ->
    (forall c : CURL, size req + chunk_bytes (chunks (engine c)) + 1 < 2 ^ 64) ->
    (forall (req0 : REQ) (url0 : option cstring),
        code (snd (requests_init req0 url0)) = 0)
    /\
    (forall cs : list (list byte),
        size req + chunk_bytes cs + 1 < 2 ^ 64 ->
        exists mid, deliver cs req = Ok (mid, true) /\ code mid = code req)
    /\
    (forall u : cstring,
        url req = Some u ->
        exists c req',
          requests_get engine curl req log = (log ++ [c], Ok (c, req')) /\
          code req' = RESPONSE_CODE (engine c) /\
          body req' = Ok (s ++ concat (map upto_nul (chunks (engine c)))))
    /\
    (exists c req',
        requests_pt slack escape engine sysname release curl req
          data data_size headers headers_size put_flag log
        = (log ++ [c], Ok (c, req')) /\
        code req' = RESPONSE_CODE (engine c) /\
        body req' = Ok (s ++ concat (map upto_nul (chunks (engine c))))).
Proof.
  intros slack escape engine sysname release curl req s data data_size
         headers headers_size put_flag log Hs Hr Hmax Hpf Hhd Hdata Hh Hbytes.
  split; [reflexivity|]. split; [|split].
  - intros cs Hcs.
    destruct (deliver_run cs req s Hh Hcs) as (mid & Hd & _ & _ & Hc & _).
    exists mid. auto.
  - intros u Hu. rewrite requests_get_shape, Hu.
    fold (get_handle curl req).
    destruct (finish_run engine (get_handle curl req) req s log
                eq_refl eq_refl Hh (Hbytes _))
      as (req' & Hrun & Hcode & _ & Hbody & _).
    exists (get_handle curl req), req'. auto.
  - destruct data as [d|].
    + destruct Hdata as (Heven & enc & Eenc).
      rewrite (requests_pt_data_run slack escape engine sysname release
                 curl req d enc data_size headers headers_size put_flag log
                 Hs Hr Hmax Hpf Hhd Heven Eenc).
      match goal with
      | |- context [set_USERAGENT ?ua (method ?pf (common_opt ?c ?r))] =>
          fold (pt_handle ua pf c r); set (h := pt_handle ua pf c r);
          destruct (pt_handle_write ua pf c r) as [Hw Hd]
      end.
      destruct (finish_run engine h req s log Hw Hd Hh (Hbytes h))
        as (req' & Hrun & Hcode & _ & Hbody & _).
      exists h, req'. auto.
    + rewrite (requests_pt_no_data_run slack escape engine sysname release
                 curl req data_size headers headers_size put_flag log
                 Hs Hr Hmax Hpf Hhd).
      match goal with
      | |- context [set_USERAGENT ?ua (method ?pf (common_opt ?c ?r))] =>
          fold (pt_handle ua pf c r); set (h := pt_handle ua pf c r);
          destruct (pt_handle_write ua pf c r) as [Hw Hd]
      end.
      destruct (finish_run engine h req s log Hw Hd Hh (Hbytes h))
        as (req' & Hrun & Hcode & _ & Hbody & _).
      exists h, req'. auto.
Qed.

(** C7.  An executor leaves the URL of the context alone; the body and its
    length are what the calls of [callback] for the chunks of the transfer
    make of them, and [callback] touches neither the URL nor the status
    code; the status code is what the executor stores after the transfer. *)
Theorem executors_frame :
  forall (slack : nat) (escape : cstring -> cstring) (engine : CURL -> outcome)
         (sysname release : cstring) (curl : CURL) (req : REQ)
         (data : option (list cstring)) (data_size : Z)
         (headers : option (list cstring)) (headers_size put_flag : Z)
         (log : list CURL),
    put_flag = 0 \/ put_flag = 1 ->
    (forall content size0 nmemb r r' v,
        callback content size0 nmemb r = Ok (r', v) ->
        url r' = url r /\ code r' = code r)
    /\
    (forall log' c' req',
        requests_get engine curl req log = (log', Ok (c', req')) ->
        framed engine req c' req')
    /\
    (forall log' c' req',
        requests_pt slack escape engine sysname release curl req
          data data_size headers headers_size put_flag log
        = (log', Ok (c', req')) ->
        framed engine req c' req').
Proof.
  intros slack escape engine sysname release curl req data data_size headers
         headers_size put_flag log Hpf.
  split; [|split].
  - intros content size0 nmemb r r' v H.
    destruct (callback_frame _ _ _ _ _ _ H) as (Hu & Hc & _). auto.
  - intros log' c' req'. rewrite requests_get_shape.
    destruct (url req); [|discriminate].
    intro H. apply finish_framed in H; [|reflexivity|reflexivity].
    destruct H as [-> H]. exact H.
  - intros log' c' req'.
    destruct (requests_pt_shape slack escape engine sysname release curl req
                data data_size headers headers_size)
      as [(e & He) | (ua & c0 & _ & _ & _ & _ & Hrun)].
    + rewrite (He put_flag log Hpf). discriminate.
    + rewrite (Hrun put_flag log Hpf).
      fold (pt_handle ua put_flag c0 req).
      destruct (pt_handle_write ua put_flag c0 req) as [Hw Hd].
      intro H. apply finish_framed in H; [|assumption|assumption].
      destruct H as [-> H]. exact H.
Qed.


(** C9.  [user_agent] builds [librequests/0.1], a space, the host's system
    name, a slash and its release.  Every transfer [requests_pt] runs carries
    that text as its user agent; [requests_get] runs its transfer with the
    user agent the handle already had. *)
Theorem user_agent_on_post_and_put_only :
  forall (slack : nat) (escape : cstring -> cstring) (engine : CURL -> outcome)
         (sysname release : cstring) (curl : CURL) (req : REQ)
         (data : option (list cstring)) (data_size : Z)
         (headers : option (list cstring)) (headers_size put_flag : Z)
         (log : list CURL),
    nul_free sysname -> nul_free release ->
    strlen sysname + strlen release + 18 < 2 ^ 31 ->
    put_flag = 0 \/ put_flag = 1 ->
    (exists ua : buffer,
        user_agent sysname release = Ok ua /\
        c_str "ua" ua
        = Ok (lit "librequests/0.1" ++ lit " " ++ sysname
                ++ lit "/" ++ release))
    /\
    (fst (requests_pt slack escape engine sysname release curl req
            data data_size headers headers_size put_flag log) = log
     \/ exists c,
        fst (requests_pt slack escape engine sysname release curl req
               data data_size headers headers_size put_flag log)
        = log ++ [c] /\
        CURLOPT_USERAGENT c = Some (user_agent_text sysname release))
    /\
    (exists c,
        fst (requests_pt slack escape engine sysname release curl req
               None data_size None headers_size put_flag log)
        = log ++ [c] /\
        CURLOPT_USERAGENT c = Some (user_agent_text sysname release))
    /\
    (fst (requests_get engine curl req log) = log
     \/ exists c,
        fst (requests_get engine curl req log) = log ++ [c] /\
        CURLOPT_USERAGENT c = CURLOPT_USERAGENT curl).
Proof.
  intros slack escape engine sysname release curl req data data_size headers
         headers_size put_flag log Hs Hr Hmax Hpf.
  destruct (user_agent_run sysname release Hs Hr Hmax) as (buf & Eua & Ecs).
  split; [|split; [|split]].
  - exists buf. auto.
  - destruct (requests_pt_shape slack escape engine sysname release curl req
                data data_size headers headers_size)
      as [(e & He) | (ua & c0 & (buf' & Eua' & Ecs') & _ & _ & _ & Hrun)].
    + left. now rewrite (He put_flag log Hpf).
    + right. rewrite (Hrun put_flag log Hpf), finish_log.
      fold (pt_handle ua put_flag c0 req).
      exists (pt_handle ua put_flag c0 req). split; [reflexivity|].
      rewrite pt_handle_agent. congruence.
  - rewrite requests_pt_no_data_run by (auto; exact I).
    rewrite finish_log.
    match goal with
    | |- context [set_USERAGENT ?ua (method ?pf (common_opt ?c ?r))] =>
        fold (pt_handle ua pf c r); exists (pt_handle ua pf c r)
    end.
    split; [reflexivity|apply pt_handle_agent].
  - rewrite requests_get_shape. destruct (url req).
    + right. rewrite finish_log. eexists; split; reflexivity.
    + left. reflexivity.
Qed.

(** C10.  [url_encode] checks nothing: it never fails an assertion.  Given
    an array of odd length [data_size], here the pairs [P] followed by a last
    key [x], the schedule of its pairing loop contains [data_size - 1]; the
    iteration at that index reads [data[data_size]], one element past the
    end, in whatever state the buffer is; the call returns no string, and it
    stops at that very read whenever the text of the pairs fits in
    [encoded].  The assertion on the parity is in [requests_pt] and guards
    the call there; it is skipped, with the whole branch, when [data] is
    NULL. *)
Theorem url_encode_unguarded_odd_size :
  forall (slack : nat) (escape : cstring -> cstring) (engine : CURL -> outcome)
         (sysname release : cstring) (curl : CURL) (req : REQ)
         (m : nat) (P : list cstring) (x : cstring)
         (headers : option (list cstring)) (headers_size put_flag : Z)
         (log : list CURL),
    length P = (2 * m)%nat ->
    nul_free sysname -> nul_free release ->
    strlen sysname + strlen release + 18 < 2 ^ 31 ->
    put_flag = 0 \/ put_flag = 1 ->
    In (2 * Z.of_nat m + 1 - 1) (evens (2 * Z.of_nat m + 1))
    /\
    (forall encoded : buffer,
        pair_body slack (P ++ [x]) encoded (2 * Z.of_nat m + 1 - 1)
        = Fault (ReadOutOfBounds "data" (2 * Z.of_nat m + 1)))
    /\
    (exists e,
        url_encode slack escape curl (P ++ [x]) (2 * Z.of_nat m + 1)
        = Fault e /\
        memory_fault e)
    /\
    (Forall nul_free P ->
     0 < total_length (P ++ [x]) ->
     total_length (P ++ [x]) + 3 < 2 ^ 64 ->
     (length (joined P) + 1 <= Z.to_nat (total_length (P ++ [x])) + slack)%nat ->
     url_encode slack escape curl (P ++ [x]) (2 * Z.of_nat m + 1)
     = Fault (ReadOutOfBounds "data" (2 * Z.of_nat m + 1)))
    /\
    (forall (d : list cstring) (n : Z) (e : fault),
        url_encode slack escape curl d n = Fault e -> memory_fault e)
    /\
    requests_pt slack escape engine sysname release curl req
      (Some (P ++ [x])) (2 * Z.of_nat m + 1) headers headers_size put_flag log
    = (log, Fault (AssertionFailed "ERROR: Data size must be even"))
    /\
    requests_pt slack escape engine sysname release curl req
      None (2 * Z.of_nat m + 1) headers headers_size put_flag log
    = requests_pt slack escape engine sysname release curl req
        None 0 headers headers_size put_flag log.
Proof.
  intros slack escape engine sysname release curl req m P x headers
         headers_size put_flag log HP Hs Hr Hmax Hpf.
  assert (Hlen : length (P ++ [x]) = (2 * m + 1)%nat)
    by (rewrite length_app; simpl; lia).
  replace (2 * Z.of_nat m + 1 - 1) with (2 * Z.of_nat m) by lia.
  split; [|split; [|split; [|split; [|split; [|split]]]]].
  - rewrite evens_odd. apply in_or_app. right. now left.
  - intro encoded. now apply pair_body_last.
  - destruct (url_encode slack escape curl (P ++ [x]) (2 * Z.of_nat m + 1))
      as [s|e] eqn:E.
    + exfalso. revert E. unfold url_encode. cbn [bind result_Monad].
      destruct (foldM _ (range (2 * Z.of_nat m + 1)) 0) as [total|e1];
        [|discriminate].
      destruct (snprintf "encoded" (vla slack total) total (lit ""))
        as [enc|e2]; [|discriminate].
      rewrite evens_odd, foldM_app.
      destruct (foldM (pair_body slack (P ++ [x]))
                      (map (fun k => 2 * Z.of_nat k) (seq 0 m)) enc)
        as [enc'|e3]; cbn [bind result_Monad foldM]; [|discriminate].
      rewrite (pair_body_last slack m (P ++ [x]) enc' Hlen). discriminate.
    + exists e. split; [reflexivity|].
      eapply url_encode_fault; eassumption.
  - intros Hnf Hpos Hbig Hfit.
    rewrite (url_encode_odd_run slack escape m curl P x HP Hnf Hpos Hbig).
    destruct (Nat.leb_spec (length (joined P) + 1)
                (Z.to_nat (total_length (P ++ [x])) + slack));
      [reflexivity|lia].
  - intros d n e. apply url_encode_fault.
  - destruct (user_agent_run sysname release Hs Hr Hmax) as (buf & Eua & Ecs).
    pose proof (rem_odd m) as Hodd.
    unfold requests_pt. rewrite Eua, Hodd.
    destruct Hpf as [-> | ->]; reflexivity.
  - reflexivity.
Qed.

(** ** Concrete instances *)

Lemma linux_nul_free : nul_free (lit "Linux").
Proof. unfold nul_free. cbn. intuition discriminate. Defined.

Lemma release_nul_free : nul_free (lit "6.1").
Proof. unfold nul_free. cbn. intuition discriminate. Defined.

Lemma host_fits : strlen (lit "Linux") + strlen (lit "6.1") + 18 < 2 ^ 31.
Proof. reflexivity. Defined.

Lemma content_length_added_without_data_witness :
  map CURLOPT_HTTPHEADER
      (fst (requests_pt 2 percent_encode answering_engine
              (lit "Linux") (lit "6.1") curl_easy_init
              (fresh (Some (lit "http://h/")))
              None 2 (Some [lit "X-A: 1"]) 1 1 []))
  = [Some [lit "Content-Length: 0"; lit "X-A: 1"]]
  /\
  map CURLOPT_HTTPHEADER
      (fst (requests_pt 2 percent_encode answering_engine
              (lit "Linux") (lit "6.1") curl_easy_init
              (fresh (Some (lit "http://h/")))
              (Some [lit "a"; lit "b"]) 2 (Some [lit "X-A: 1"]) 1 1 []))
  = [Some [lit "X-A: 1"]].
Proof.
  destruct (content_length_added_without_data
              2 percent_encode answering_engine (lit "Linux") (lit "6.1")
              curl_easy_init (fresh (Some (lit "http://h/")))
              2 (Some [lit "X-A: 1"]) 1 1 []
              linux_nul_free release_nul_free host_fits
              (or_intror eq_refl))
    as [A B].
  - cbn. lia.
  - split.
    + exact A.
    + exact (B [lit "a"; lit "b"] (lit "a%3Db") eq_refl eq_refl).
Defined.

(** With custom headers and no data the zero-length header is sent all the
    same, ahead of the custom ones. *)
Lemma content_length_sent_with_custom_headers :
  map CURLOPT_HTTPHEADER
      (fst (requests_post_headers 0 percent_encode answering_engine
              (lit "Linux") (lit "6.1") curl_easy_init
              (fresh (Some (lit "http://h/")))
              None 0 (Some [lit "X-A: 1"]) 1 []))
  = [Some [lit "Content-Length: 0"; lit "X-A: 1"]].
Proof. reflexivity. Qed.

(** With an empty URL the assertion passes and the transfer is run. *)
Lemma requests_get_empty_url_is_transferred :
  exists c req',
    requests_get unreachable_engine curl_easy_init (fresh (Some (lit ""))) []
    = ([c], Ok (c, req')) /\
    CURLOPT_URL c = Some (lit "").
Proof.
  exists (get_handle curl_easy_init (fresh (Some (lit "")))),
         (fresh (Some (lit ""))).
  split; reflexivity.
Qed.

(** A transfer that fails after the status line: [curl_easy_perform] returns
    an error, and the status code is 200, not 0. *)
Lemma status_code_after_broken_transfer :
  exists c req',
    requests_get breaking_engine curl_easy_init
      (fresh (Some (lit "http://h/"))) []
    = ([c], Ok (c, req')) /\
    CURLcode (breaking_engine c) = 18 /\
    code req' = 200 /\ body req' = Ok (lit "ab").
Proof.
  exists (get_handle curl_easy_init (fresh (Some (lit "http://h/")))),
         (mkREQ 200 (Some (lit "http://h/"))
            (map Some (lit "ab") ++ [Some x00]) 2).
  repeat split.
Qed.

Lemma status_code_is_engine_report_witness :
  exists c req',
    requests_pt 2 percent_encode breaking_engine (lit "Linux") (lit "6.1")
      curl_easy_init (fresh (Some (lit "http://h/")))
      (Some [lit "a"; lit "b"]) 2 (Some [lit "X-A: 1"]) 1 0 []
    = ([] ++ [c], Ok (c, req')) /\
    code req' = RESPONSE_CODE (breaking_engine c) /\
    body req' = Ok ([] ++ concat (map upto_nul (chunks (breaking_engine c)))).
Proof.
  destruct (status_code_is_engine_report
              2 percent_encode breaking_engine (lit "Linux") (lit "6.1")
              curl_easy_init (fresh (Some (lit "http://h/"))) []
              (Some [lit "a"; lit "b"]) 2 (Some [lit "X-A: 1"]) 1 0 []
              linux_nul_free release_nul_free host_fits
              (or_introl eq_refl))
    as (_ & _ & _ & H).
  - cbn. lia.
  - split; [reflexivity|]. exists (lit "a%3Db"). reflexivity.
  - apply fresh_holds.
  - intro c. reflexivity.
  - exact H.
Defined.

Lemma executors_frame_witness :
  framed answering_engine (fresh (Some (lit "http://h/")))
    (get_handle curl_easy_init (fresh (Some (lit "http://h/"))))
    (mkREQ 200 (Some (lit "http://h/"))
       (map Some (lit "hello") ++ [Some x00]) 5).
Proof.
  destruct (executors_frame
              0 percent_encode answering_engine (lit "Linux") (lit "6.1")
              curl_easy_init (fresh (Some (lit "http://h/")))
              None 0 None 0 0 [] (or_introl eq_refl))
    as (_ & H & _).
  apply (H [get_handle curl_easy_init (fresh (Some (lit "http://h/")))]).
  reflexivity.
Defined.


Example post_put_with_room :
  map CURLOPT_POSTFIELDS
      (fst (requests_post 2 percent_encode answering_engine
              (lit "Linux") (lit "6.1") curl_easy_init
              (fresh (Some (lit "http://h/")))
              (Some [lit "name"; lit "a b"]) 2 []))
  = [Some (lit "name%3Da%20b")]
  /\
  map CURLOPT_POSTFIELDS
      (fst (requests_put 2 percent_encode answering_engine
              (lit "Linux") (lit "6.1") curl_easy_init
              (fresh (Some (lit "http://h/")))
              (Some [lit "name"; lit "a b"]) 2 []))
  = [Some (lit "name%3Da%20b")].
Proof. split; reflexivity. Qed.

Lemma user_agent_on_post_and_put_only_witness :
  exists ua : buffer,
    user_agent (lit "Linux") (lit "6.1") = Ok ua /\
    c_str "ua" ua = Ok (lit "librequests/0.1 Linux/6.1").
Proof.
  destruct (user_agent_on_post_and_put_only
              0 percent_encode answering_engine (lit "Linux") (lit "6.1")
              curl_easy_init (fresh (Some (lit "http://h/")))
              None 0 None 0 0 []
              linux_nul_free release_nul_free host_fits
              (or_introl eq_refl))
    as (H & _).
  exact H.
Defined.

Lemma url_encode_unguarded_odd_size_witness :
  url_encode 0 percent_encode curl_easy_init [lit "k"; lit "v"; lit "kk"] 3
  = Fault (ReadOutOfBounds "data" 3)
  /\
  requests_pt 0 percent_encode answering_engine (lit "Linux") (lit "6.1")
    curl_easy_init (fresh (Some (lit "http://h/")))
    (Some [lit "k"; lit "v"; lit "kk"]) 3 None 0 0 []
  = ([], Fault (AssertionFailed "ERROR: Data size must be even")).
Proof.
  destruct (url_encode_unguarded_odd_size
              0 percent_encode answering_engine (lit "Linux") (lit "6.1")
              curl_easy_init (fresh (Some (lit "http://h/")))
              1 [lit "k"; lit "v"] (lit "kk") None 0 0 []
              eq_refl linux_nul_free release_nul_free host_fits
              (or_introl eq_refl))
    as (_ & _ & _ & Hread & _ & Hpt & _).
  split; [|exact Hpt].
  apply Hread.
  - repeat constructor; unfold nul_free; cbn; intuition discriminate.
  - reflexivity.
  - reflexivity.
  - cbn. lia.
Defined.

(** * Further properties of [requests.c] *)

(** ** [callback] *)

Lemma strndup_prefix (content : list byte) :
  forall (n : nat) (i : Z),
    (n <= length content)%nat ->
    strndup content i n = Ok (upto_nul (firstn n content)).
Proof.
  induction content as [|c content IH]; intros [|n] i Hn; simpl in *;
    try reflexivity; try lia.
  destruct (Byte.eqb c x00); [reflexivity|].
  rewrite IH by lia. reflexivity.
Qed.

Lemma strndup_ignores_rest (c junk : list byte) :
  forall i, strndup (c ++ junk) i (length c) = strndup c i (length c).
Proof.
  induction c as [|b c IH]; intro i; simpl; [destruct junk; reflexivity|].
  destruct (Byte.eqb b x00); [reflexivity|]. now rewrite IH.
Qed.

(** X1.  On a context whose block has [size + 1] bytes and starts with a C
    string no longer than [size], a call of [callback] that announces [n]
    readable bytes never faults and returns [n]; the block again has
    [size + 1] bytes for the new [size], which grew by [n]; the old body is
    kept and what follows it is the chunk up to its first zero byte. *)
Theorem callback_keeps_block_and_terminator :
  forall (content : list byte) (size0 nmemb : Z) (req : REQ) (s : cstring),
    holds req s ->
    0 <= size0 * nmemb ->
    size req + size0 * nmemb + 1 < 2 ^ 64 ->
    (Z.to_nat (size0 * nmemb) <= length content)%nat ->
    exists req',
      callback content size0 nmemb req = Ok (req', size0 * nmemb) /\
      holds req' (s ++ upto_nul (firstn (Z.to_nat (size0 * nmemb)) content)) /\
      size req' = size req + size0 * nmemb /\
      code req' = code req /\ url req' = url req.
Proof.
  intros content size0 nmemb req s Hh Hpos Hmax Hlen.
  apply callback_step; auto.
  now apply strndup_prefix.
Qed.

Lemma callback_keeps_block_and_terminator_witness :
  exists req',
    callback (lit "hello") 1 3 (fresh None) = Ok (req', 1 * 3) /\
    holds req' ([] ++ upto_nul (firstn (Z.to_nat (1 * 3)) (lit "hello"))) /\
    size req' = size (fresh None) + 1 * 3 /\
    code req' = code (fresh None) /\ url req' = url (fresh None).
Proof.
  apply (callback_keeps_block_and_terminator
           (lit "hello") 1 3 (fresh None) [] (fresh_holds None)).
  - lia.
  - reflexivity.
  - cbn. lia.
Defined.

(** X2.  A call that announces no byte leaves the context exactly as it
    was, whatever [content] points to. *)
Theorem callback_empty_chunk_changes_nothing :
  forall (content : list byte) (size0 nmemb : Z) (req : REQ) (s : cstring),
    holds req s ->
    size0 * nmemb = 0 ->
    size req + 1 < 2 ^ 64 ->
    callback content size0 nmemb req = Ok (req, 0).
Proof.
  intros content size0 nmemb [c u t sz] s (Hb & Hlen & Hs) Hz Hmax.
  cbn [text size] in *.
  unfold body, c_str in Hb. cbn [text] in Hb.
  destruct (scan_inv _ _ _ _ Hb) as (Hnf & rest & ->).
  unfold callback. cbn [text size code url]. rewrite Hz.
  change (size_t 0) with 0. rewrite !Z.add_0_r.
  rewrite !size_t_small by lia.
  change (Z.to_nat 0) with 0%nat.
  assert (Hdup : strndup content 0 0 = Ok []) by (destruct content; reflexivity).
  rewrite Hdup. cbn [bind result_Monad].
  rewrite realloc_grow by lia.
  replace (Z.to_nat (sz + 1) - length (map Some s ++ Some x00 :: rest))%nat
    with 0%nat by lia.
  cbn [repeat]. rewrite app_nil_r.
  unfold strcat, c_str. rewrite (scan_string _ _ _ Hnf).
  cbn [bind result_Monad app].
  rewrite poke_fits; [reflexivity|now rewrite length_map|simpl; lia].
Qed.

Lemma callback_empty_chunk_changes_nothing_witness :
  callback (lit "ignored") 1 0 (fresh (Some (lit "http://h/")))
  = Ok (fresh (Some (lit "http://h/")), 0).
Proof.
  apply (callback_empty_chunk_changes_nothing
           (lit "ignored") 1 0 (fresh (Some (lit "http://h/"))) []
           (fresh_holds _)).
  - reflexivity.
  - reflexivity.
Defined.

(** X3.  [callback] reads the [size * nmemb] bytes it is told about and no
    more: what lies behind them in the engine's memory does not matter, so a
    chunk need not be terminated. *)
Theorem callback_reads_announced_bytes_only :
  forall (chunk junk : list byte) (size0 nmemb : Z) (req : REQ),
    Z.to_nat (size_t (size0 * nmemb)) = length chunk ->
    callback (chunk ++ junk) size0 nmemb req = callback chunk size0 nmemb req.
Proof.
  intros chunk junk size0 nmemb req H.
  unfold callback. rewrite H, strndup_ignores_rest. reflexivity.
Qed.

Lemma callback_reads_announced_bytes_only_witness :
  callback (lit "abc" ++ lit "XYZ") 1 3 (fresh None)
  = callback (lit "abc") 1 3 (fresh None).
Proof.
  apply (callback_reads_announced_bytes_only
           (lit "abc") (lit "XYZ") 1 3 (fresh None)).
  reflexivity.
Defined.

(** X4.  When [size] is the length of the body and the chunks of a transfer
    carry no zero byte, every chunk is consumed, the body becomes the old
    body followed by the chunks in order, and [size] is again its length. *)
Theorem text_chunks_keep_size_exact :
  forall (cs : list (list byte)) (req : REQ) (s : cstring),
    holds req s ->
    size req = Z.of_nat (length s) ->
    Forall nul_free cs ->
    size req + chunk_bytes cs + 1 < 2 ^ 64 ->
    exists req',
      deliver cs req = Ok (req', true) /\
      body req' = Ok (s ++ concat cs) /\
      size req' = Z.of_nat (length (s ++ concat cs)).
Proof.
  intros cs req s Hh Hsz Hnf Hmax.
  destruct (deliver_run cs req s Hh Hmax)
    as (req' & Hd & (Hb & _) & Hsz' & _).
  exists req'. rewrite concat_upto_nul in Hb by assumption.
  rewrite length_app, Nat2Z.inj_add, length_concat_chunks. split; [assumption|].
  split; [assumption|lia].
Qed.

Lemma text_chunks_keep_size_exact_witness :
  exists req',
    deliver [lit "ab"; lit ""; lit "cde"] (fresh None) = Ok (req', true) /\
    body req' = Ok ([] ++ concat [lit "ab"; lit ""; lit "cde"]) /\
    size req' = Z.of_nat (length ([] ++ concat [lit "ab"; lit ""; lit "cde"])).
Proof.
  apply (text_chunks_keep_size_exact
           [lit "ab"; lit ""; lit "cde"] (fresh None) [] (fresh_holds None)).
  - reflexivity.
  - repeat constructor; unfold nul_free; cbn; intuition discriminate.
  - reflexivity.
Defined.

(** X5.  A context whose [text] is NULL (or an empty block), that is one
    [requests_init] never prepared, makes the first call of [callback] read
    an indeterminate byte: [realloc] then hands out a new block and [strcat]
    looks for the end of a string that was never written. *)
Theorem callback_needs_initialised_text :
  forall (content : list byte) (size0 nmemb : Z) (req : REQ),
    text req = [] ->
    0 <= size req ->
    0 <= size0 * nmemb ->
    size req + size0 * nmemb + 1 < 2 ^ 64 ->
    (Z.to_nat (size0 * nmemb) <= length content)%nat ->
    callback content size0 nmemb req = Fault (ReadIndeterminate "text" 0).
Proof.
  intros content size0 nmemb req Ht Hsz Hpos Hmax Hlen.
  unfold callback. rewrite Ht.
  rewrite (size_t_small (size0 * nmemb)) by lia.
  rewrite !size_t_small by lia.
  rewrite (strndup_prefix content _ 0 Hlen). cbn [bind result_Monad].
  unfold realloc. rewrite firstn_nil. cbn [app length].
  destruct (Z.to_nat (size req + size0 * nmemb + 1) - 0)%nat eqn:E; [lia|].
  reflexivity.
Qed.

Lemma callback_needs_initialised_text_witness :
  callback (lit "ab") 1 2 (mkREQ 0 (Some (lit "http://h/")) [] 0)
  = Fault (ReadIndeterminate "text" 0).
Proof.
  apply (callback_needs_initialised_text
           (lit "ab") 1 2 (mkREQ 0 (Some (lit "http://h/")) [] 0)).
  - reflexivity.
  - cbn. lia.
  - lia.
  - reflexivity.
  - cbn. lia.
Defined.

(** ** [url_encode] *)

Lemma foldM_ext {A S : Type} (f g : S -> A -> result S) (l : list A) :
  (forall a, In a l -> forall s, f s a = g s a) ->
  forall s, foldM f l s = foldM g l s.
Proof.
  induction l as [|a l IH]; intros H s; simpl; [reflexivity|].
  rewrite (H a (or_introl eq_refl)).
  destruct (g s a); simpl; [|reflexivity].
  apply IH. intros b Hb. apply H. now right.
Qed.

Lemma index_app_l {A : Type} (obj : string) (a b : list A) (i : Z) :
  0 <= i < Z.of_nat (length a) ->
  index obj (a ++ b) i = index obj a i.
Proof.
  intro H. unfold index. destruct (Z.ltb_spec i 0); [lia|].
  rewrite nth_error_app1 by lia. reflexivity.
Qed.

Lemma range_nonpositive (n : Z) : n <= 0 -> range n = [].
Proof.
  intro H. unfold range. replace (Z.to_nat n) with 0%nat by lia. reflexivity.
Qed.

Lemma evens_nonpositive (n : Z) : n <= 0 -> evens n = [].
Proof.
  intro H. unfold evens.
  assert (Hd : (n + 1) / 2 <= 0).
  { apply Z.lt_succ_r. apply Z.div_lt_upper_bound; lia. }
  replace (Z.to_nat ((n + 1) / 2)) with 0%nat by lia. reflexivity.
Qed.

Lemma evens_head (n : Z) : 1 <= n -> exists l, evens n = 0 :: l.
Proof.
  intro H. unfold evens.
  assert (Hd : 1 <= (n + 1) / 2) by (apply Z.div_le_lower_bound; lia).
  destruct (Z.to_nat ((n + 1) / 2)) as [|k] eqn:E; [lia|].
  cbn [seq map]. eexists. reflexivity.
Qed.

Lemma sum_loop_all (data : list cstring) :
  total_length data < 2 ^ 64 ->
  foldM (fun total_size i =>
           tmp <- index "data" data i ;;
           let tmp_len := strlen tmp in
           Ok (size_t (total_size + tmp_len)))
        (map Z.of_nat (seq 0 (length data))) 0
  = Ok (total_length data).
Proof.
  intro H.
  pose proof (sum_loop data [] 0 ltac:(lia) ltac:(lia)) as Hsum.
  cbn [app length] in Hsum. rewrite Z.add_0_l in Hsum. exact Hsum.
Qed.

(** X6.  What [url_encode] makes of an even, non-empty array of C strings
    that are not all empty: the joined text [k0=v0&k1=v1...] takes exactly
    [data_size] bytes more than [encoded] is declared with.  With that much
    writable room behind the array the result is the escape of the joined
    text, pairs in input order; with less, [strncat] writes past the end. *)
Theorem url_encode_needs_data_size_more_bytes :
  forall (slack : nat) (escape : cstring -> cstring) (m : nat) (curl : CURL)
         (data : list cstring),
    length data = (2 * S m)%nat ->
    Forall nul_free data ->
    0 < total_length data ->
    total_length data + 3 < 2 ^ 64 ->
    url_encode slack escape curl data (2 * Z.of_nat (S m))
    = if (2 * S m <=? slack)%nat
      then Ok (escape (joined data))
      else Fault (WriteOutOfBounds "encoded").
Proof. exact url_encode_run. Qed.

Lemma url_encode_needs_data_size_more_bytes_witness :
  url_encode 4 percent_encode curl_easy_init
    [lit "k"; lit "v"; lit "kk"; lit "v v"] (2 * Z.of_nat 2)
  = Ok (lit "k%3Dv%26kk%3Dv%20v")
  /\
  url_encode 3 percent_encode curl_easy_init
    [lit "k"; lit "v"; lit "kk"; lit "v v"] (2 * Z.of_nat 2)
  = Fault (WriteOutOfBounds "encoded").
Proof.
  assert (Hnf : Forall nul_free [lit "k"; lit "v"; lit "kk"; lit "v v"])
    by (repeat constructor; unfold nul_free; cbn; intuition discriminate).
  split.
  - exact (url_encode_needs_data_size_more_bytes
             4 percent_encode 1 curl_easy_init
             [lit "k"; lit "v"; lit "kk"; lit "v v"]
             eq_refl Hnf eq_refl eq_refl).
  - exact (url_encode_needs_data_size_more_bytes
             3 percent_encode 1 curl_easy_init
             [lit "k"; lit "v"; lit "kk"; lit "v v"]
             eq_refl Hnf eq_refl eq_refl).
Defined.

(** X7.  Keys and values that are all empty: [encoded] then has no element,
    nothing is stored in it before the loop, and the first [strncat] looks
    for the end of a string in a byte that was never written.  This holds for
    every array of two or more empty strings. *)
Theorem url_encode_all_strings_empty :
  forall (slack : nat) (escape : cstring -> cstring) (curl : CURL)
         (data : list cstring),
    (2 <= length data)%nat ->
    Forall (fun s => s = []) data ->
    url_encode slack escape curl data (Z.of_nat (length data))
    = Fault (match slack with
             | O => ReadOutOfBounds "encoded" 0
             | S _ => ReadIndeterminate "encoded" 0
             end).
Proof.
  intros slack escape curl data Hlen Hall.
  assert (Htot : total_length data = 0).
  { clear Hlen. induction Hall as [|x l Hx _ IH]; [reflexivity|].
    subst. cbn [total_length fold_right] in *. unfold total_length in IH.
    rewrite IH. reflexivity. }
  unfold url_encode, range. rewrite Nat2Z.id.
  rewrite sum_loop_all by (rewrite Htot; reflexivity).
  rewrite Htot. cbn [bind result_Monad].
  change (snprintf "encoded" (vla slack 0) 0 (lit "")) with (Ok (vla slack 0)).
  cbn [bind result_Monad].
  destruct (evens_head (Z.of_nat (length data)) ltac:(lia)) as [l ->].
  destruct data as [|k [|v data]]; try (simpl in Hlen; lia).
  inversion Hall as [|? ? Hk Hall1]; subst.
  inversion Hall1 as [|? ? Hv _]; subst.
  cbn [foldM].
  destruct slack; reflexivity.
Qed.

Lemma url_encode_all_strings_empty_witness :
  url_encode 0 percent_encode curl_easy_init [lit ""; lit ""]
    (Z.of_nat (length [lit ""; lit ""]))
  = Fault (ReadOutOfBounds "encoded" 0).
Proof.
  apply (url_encode_all_strings_empty
           0 percent_encode curl_easy_init [lit ""; lit ""]).
  - cbn. lia.
  - repeat constructor.
Defined.

(** X8.  A [data_size] larger than the array: the first loop, which sums
    the lengths, already reads the element behind the last one. *)
Theorem url_encode_size_beyond_array :
  forall (slack : nat) (escape : cstring -> cstring) (curl : CURL)
         (data : list cstring) (data_size : Z),
    Z.of_nat (length data) < data_size ->
    total_length data < 2 ^ 64 ->
    url_encode slack escape curl data data_size
    = Fault (ReadOutOfBounds "data" (Z.of_nat (length data))).
Proof.
  intros slack escape curl data data_size Hsize Htot.
  unfold url_encode, range.
  replace (Z.to_nat data_size)
    with (length data + S (Z.to_nat data_size - S (length data)))%nat by lia.
  rewrite seq_app, map_app, foldM_app.
  rewrite sum_loop_all by assumption.
  cbn [bind result_Monad seq map foldM Nat.add].
  rewrite index_past_end by lia. reflexivity.
Qed.

Lemma url_encode_size_beyond_array_witness :
  url_encode 0 percent_encode curl_easy_init [lit "k"; lit "v"] 4
  = Fault (ReadOutOfBounds "data" (Z.of_nat (length [lit "k"; lit "v"]))).
Proof.
  apply (url_encode_size_beyond_array
           0 percent_encode curl_easy_init [lit "k"; lit "v"] 4).
  - reflexivity.
  - reflexivity.
Defined.

(** X9.  With an even [data_size] the function looks at the first
    [data_size] elements only: what the array holds behind them changes
    nothing, be the outcome a string or a fault. *)
Theorem url_encode_reads_first_data_size_elements :
  forall (slack : nat) (escape : cstring -> cstring) (curl : CURL)
         (m : nat) (data more : list cstring),
    length data = (2 * m)%nat ->
    url_encode slack escape curl (data ++ more) (2 * Z.of_nat m)
    = url_encode slack escape curl data (2 * Z.of_nat m).
Proof.
  intros slack escape curl m data more Hlen.
  unfold url_encode.
  rewrite (foldM_ext
             (fun total_size i =>
                tmp <- index "data" (data ++ more) i ;;
                let tmp_len := strlen tmp in
                Ok (size_t (total_size + tmp_len)))
             (fun total_size i =>
                tmp <- index "data" data i ;;
                let tmp_len := strlen tmp in
                Ok (size_t (total_size + tmp_len)))).
  2:{ intros i Hi s. unfold range in Hi.
      apply in_map_iff in Hi as (j & <- & Hj). apply in_seq in Hj.
      rewrite index_app_l by lia. reflexivity. }
  cbn [bind result_Monad].
  match goal with
  | |- match ?X with _ => _ end = _ => destruct X as [total|e]
  end; [|reflexivity].
  destruct (snprintf "encoded" (vla slack total) total (lit "")) as [enc|e];
    [|reflexivity].
  rewrite (foldM_ext (pair_body slack (data ++ more)) (pair_body slack data)).
  - reflexivity.
  - intros i Hi s. rewrite evens_even in Hi.
    apply in_map_iff in Hi as (j & <- & Hj). apply in_seq in Hj.
    unfold pair_body. rewrite !index_app_l by lia. reflexivity.
Qed.

Lemma url_encode_reads_first_data_size_elements_witness :
  url_encode 2 percent_encode curl_easy_init
    ([lit "a"; lit "b"] ++ [lit "unread"]) (2 * Z.of_nat 1)
  = url_encode 2 percent_encode curl_easy_init [lit "a"; lit "b"]
      (2 * Z.of_nat 1).
Proof.
  apply (url_encode_reads_first_data_size_elements
           2 percent_encode curl_easy_init 1 [lit "a"; lit "b"]
           [lit "unread"]).
  reflexivity.
Defined.

Lemma url_encode_nonpositive (slack : nat) (escape : cstring -> cstring)
      (curl : CURL) (data : list cstring) (data_size : Z) :
  data_size <= 0 ->
  url_encode slack escape curl data data_size
  = Fault (match slack with
           | O => ReadOutOfBounds "encoded" 0
           | S _ => ReadIndeterminate "encoded" 0
           end).
Proof.
  intro H. unfold url_encode.
  rewrite range_nonpositive, evens_nonpositive by assumption.
  destruct slack; reflexivity.
Qed.

(** ** The executors *)

Lemma pt_handle_url (ua : cstring) (put_flag : Z) (c0 : CURL) (req : REQ) :
  CURLOPT_URL (pt_handle ua put_flag c0 req) = url req.
Proof. unfold pt_handle, method. destruct (put_flag =? 0); reflexivity. Qed.

Lemma pt_handle_body (ua : cstring) (put_flag : Z) (c0 : CURL) (req : REQ) :
  CURLOPT_POSTFIELDS (pt_handle ua put_flag c0 req) = CURLOPT_POSTFIELDS c0.
Proof. unfold pt_handle, method. destruct (put_flag =? 0); reflexivity. Qed.

Lemma headers_loop_past_end (h : list cstring) (headers_size : Z)
      (sl : option (list cstring)) :
  Z.of_nat (length h) < headers_size ->
  foldM (fun slist i =>
           x <- index "headers" h i ;;
           Ok (curl_slist_append slist x))
        (range headers_size) sl
  = Fault (ReadOutOfBounds "headers" (Z.of_nat (length h))).
Proof.
  intro H. unfold range.
  replace (Z.to_nat headers_size)
    with (length h + S (Z.to_nat headers_size - S (length h)))%nat by lia.
  rewrite seq_app, map_app, foldM_app.
  pose proof (headers_loop (length h) [] h sl (Nat.le_refl _)) as Hl.
  cbn [app length] in Hl. rewrite Hl.
  cbn [bind result_Monad seq map foldM Nat.add].
  rewrite index_past_end by lia. reflexivity.
Qed.

(** X10.  [requests_get] never resets the body: on a context that already
    holds a body, with a URL, it runs one transfer and leaves the old body
    followed by the new text, [size] increased by the bytes received, the
    status code replaced.  A context used for a second request therefore
    ends with both responses in its body. *)
Theorem requests_get_appends_to_body :
  forall (engine : CURL -> outcome) (curl : CURL) (req : REQ)
         (s u : cstring) (log : list CURL),
    holds req s ->
    url req = Some u ->
    size req + chunk_bytes (chunks (engine (get_handle curl req))) + 1 < 2 ^ 64 ->
    exists req',
      requests_get engine curl req log
      = (log ++ [get_handle curl req], Ok (get_handle curl req, req')) /\
      holds req'
        (s ++ concat (map upto_nul (chunks (engine (get_handle curl req))))) /\
      size req'
      = size req + chunk_bytes (chunks (engine (get_handle curl req))) /\
      code req' = RESPONSE_CODE (engine (get_handle curl req)) /\
      url req' = Some u.
Proof.
  intros engine curl req s u log Hh Hu Hmax.
  rewrite requests_get_shape, Hu.
  fold (get_handle curl req).
  rewrite (finish_shape engine (get_handle curl req) req log eq_refl eq_refl).
  destruct (deliver_run (chunks (engine (get_handle curl req))) req s Hh Hmax)
    as (mid & Hd & (Hb & Hl & Hs) & Hsz & _ & Hurl).
  rewrite Hd. eexists. split; [reflexivity|].
  unfold holds, body in *. cbn [text size code url].
  repeat split; auto. congruence.
Qed.

Lemma requests_get_appends_to_body_witness :
  exists req',
    requests_get answering_engine curl_easy_init
      (mkREQ 200 (Some (lit "http://h/")) (map Some (lit "hello") ++ [Some x00]) 5)
      []
    = ([] ++ [get_handle curl_easy_init
                (mkREQ 200 (Some (lit "http://h/"))
                   (map Some (lit "hello") ++ [Some x00]) 5)],
       Ok (get_handle curl_easy_init
             (mkREQ 200 (Some (lit "http://h/"))
                (map Some (lit "hello") ++ [Some x00]) 5), req')) /\
    body req' = Ok (lit "hellohello") /\ size req' = 10.
Proof.
  destruct (requests_get_appends_to_body
              answering_engine curl_easy_init
              (mkREQ 200 (Some (lit "http://h/"))
                 (map Some (lit "hello") ++ [Some x00]) 5)
              (lit "hello") (lit "http://h/") [])
    as (req' & Hrun & (Hb & _) & Hsz & _).
  - unfold holds, body. cbn. repeat split; lia.
  - reflexivity.
  - reflexivity.
  - exists req'. split; [exact Hrun|]. split; [exact Hb|exact Hsz].
Defined.

(** X11.  [requests_get] selects no method and resets nothing: of the
    handle it is given it sets the URL, the write function and the write
    data, and every other option reaches its transfer as the handle had it.
    A handle on which the caller has set the custom request [PUT] thus still
    sends [PUT].  (Nothing is said here about a handle [requests_pt] has
    used: the body and the header list it installed are released there.) *)
Theorem requests_get_sets_url_and_writer_only :
  forall (engine : CURL -> outcome) (curl : CURL) (req : REQ) (u : cstring)
         (log : list CURL),
    url req = Some u ->
    exists h,
      fst (requests_get engine curl req log) = log ++ [h] /\
      CURLOPT_URL h = Some u /\
      CURLOPT_WRITEFUNCTION h = Some the_callback /\
      CURLOPT_WRITEDATA h = true /\
      CURLOPT_CUSTOMREQUEST h = CURLOPT_CUSTOMREQUEST curl /\
      CURLOPT_POST h = CURLOPT_POST curl /\
      CURLOPT_POSTFIELDS h = CURLOPT_POSTFIELDS curl /\
      CURLOPT_HTTPHEADER h = CURLOPT_HTTPHEADER curl /\
      CURLOPT_USERAGENT h = CURLOPT_USERAGENT curl.
Proof.
  intros engine curl req u log Hu.
  exists (get_handle curl req).
  rewrite requests_get_shape, Hu, finish_log.
  split; [reflexivity|].
  split; [cbn; assumption|].
  repeat split.
Qed.

Lemma requests_get_sets_url_and_writer_only_witness :
  exists h,
    fst (requests_get answering_engine
           (set_CUSTOMREQUEST (lit "PUT") curl_easy_init)
           (fresh (Some (lit "http://h/"))) [])
    = [] ++ [h] /\
    CURLOPT_URL h = Some (lit "http://h/") /\
    CURLOPT_CUSTOMREQUEST h = Some (lit "PUT").
Proof.
  destruct (requests_get_sets_url_and_writer_only
              answering_engine (set_CUSTOMREQUEST (lit "PUT") curl_easy_init)
              (fresh (Some (lit "http://h/"))) (lit "http://h/") [] eq_refl)
    as (h & Hlog & Hurl & _ & _ & Hm & _).
  exists h. split; [exact Hlog|]. split; [exact Hurl|exact Hm].
Defined.

(** X12.  A method flag other than 0 or 1 stops [requests_pt] at its first
    assertion, whatever the other arguments are: nothing is configured and
    no transfer is run. *)
Theorem requests_pt_rejects_other_flags :
  forall (slack : nat) (escape : cstring -> cstring) (engine : CURL -> outcome)
         (sysname release : cstring) (curl : CURL) (req : REQ)
         (data : option (list cstring)) (data_size : Z)
         (headers : option (list cstring)) (headers_size put_flag : Z)
         (log : list CURL),
    nul_free sysname -> nul_free release ->
    strlen sysname + strlen release + 18 < 2 ^ 31 ->
    put_flag <> 0 -> put_flag <> 1 ->
    requests_pt slack escape engine sysname release curl req
      data data_size headers headers_size put_flag log
    = (log, Fault (AssertionFailed "ERROR: Invalid PUT request flag")).
Proof.
  intros slack escape engine sysname release curl req data data_size headers
         headers_size put_flag log Hs Hr Hmax H0 H1.
  destruct (user_agent_run sysname release Hs Hr Hmax) as (buf & Eua & _).
  unfold requests_pt. rewrite Eua.
  destruct (Z.eqb_spec put_flag 0); [contradiction|].
  destruct (Z.eqb_spec put_flag 1); [contradiction|].
  reflexivity.
Qed.

Lemma requests_pt_rejects_other_flags_witness :
  requests_pt 0 percent_encode answering_engine (lit "Linux") (lit "6.1")
    curl_easy_init (fresh (Some (lit "http://h/"))) None 0 None 0 2 []
  = ([], Fault (AssertionFailed "ERROR: Invalid PUT request flag")).
Proof.
  apply (requests_pt_rejects_other_flags
           0 percent_encode answering_engine (lit "Linux") (lit "6.1")
           curl_easy_init (fresh (Some (lit "http://h/"))) None 0 None 0 2 []
           linux_nul_free release_nul_free host_fits).
  - discriminate.
  - discriminate.
Defined.

(** X13.  Unlike [requests_get], [requests_pt] does not assert that a URL is
    present: with a NULL URL and no data it configures the handle with that
    NULL URL and runs the transfer all the same. *)
Theorem requests_pt_transfers_without_url :
  forall (slack : nat) (escape : cstring -> cstring) (engine : CURL -> outcome)
         (sysname release : cstring) (curl : CURL) (req : REQ) (s : cstring)
         (data_size headers_size put_flag : Z) (log : list CURL),
    nul_free sysname -> nul_free release ->
    strlen sysname + strlen release + 18 < 2 ^ 31 ->
    put_flag = 0 \/ put_flag = 1 ->
    url req = None ->
    holds req s ->
    (forall c, size req + chunk_bytes (chunks (engine c)) + 1 < 2 ^ 64) ->
    exists h req',
      requests_pt slack escape engine sysname release curl req
        None data_size None headers_size put_flag log
      = (log ++ [h], Ok (h, req')) /\
      CURLOPT_URL h = None.
Proof.
  intros slack escape engine sysname release curl req s data_size
         headers_size put_flag log Hs Hr Hmax Hpf Hu Hh Hbytes.
  rewrite requests_pt_no_data_run by (auto; exact I).
  match goal with
  | |- context [set_USERAGENT ?ua (method ?pf (common_opt ?c ?r))] =>
      fold (pt_handle ua pf c r); set (h := pt_handle ua pf c r)
  end.
  destruct (pt_handle_write (user_agent_text sysname release) put_flag
              (set_HTTPHEADER
                 (Some (lit "Content-Length: 0" :: custom None headers_size))
                 curl) req) as [Hw Hd].
  destruct (finish_run engine h req s log Hw Hd Hh (Hbytes h))
    as (req' & Hrun & _).
  exists h, req'. split; [assumption|].
  unfold h. rewrite pt_handle_url. assumption.
Qed.

Lemma requests_pt_transfers_without_url_witness :
  exists h req',
    requests_pt 0 percent_encode unreachable_engine (lit "Linux") (lit "6.1")
      curl_easy_init (fresh None) None 0 None 0 0 []
    = ([] ++ [h], Ok (h, req')) /\
    CURLOPT_URL h = None.
Proof.
  apply (requests_pt_transfers_without_url
           0 percent_encode unreachable_engine (lit "Linux") (lit "6.1")
           curl_easy_init (fresh None) [] 0 0 0 []
           linux_nul_free release_nul_free host_fits (or_introl eq_refl)
           eq_refl (fresh_holds None)).
  intro c. reflexivity.
Defined.

(** X14.  A [headers_size] larger than the array of headers: after the last
    header the loop reads the element behind it, before the handle gets the
    list and before any transfer. *)
Theorem requests_pt_headers_size_beyond_array :
  forall (slack : nat) (escape : cstring -> cstring) (engine : CURL -> outcome)
         (sysname release : cstring) (curl : CURL) (req : REQ)
         (data_size : Z) (h : list cstring) (headers_size put_flag : Z)
         (log : list CURL),
    nul_free sysname -> nul_free release ->
    strlen sysname + strlen release + 18 < 2 ^ 31 ->
    put_flag = 0 \/ put_flag = 1 ->
    Z.of_nat (length h) < headers_size ->
    requests_pt slack escape engine sysname release curl req
      None data_size (Some h) headers_size put_flag log
    = (log, Fault (ReadOutOfBounds "headers" (Z.of_nat (length h)))).
Proof.
  intros slack escape engine sysname release curl req data_size h
         headers_size put_flag log Hs Hr Hmax Hpf Hsize.
  destruct (user_agent_run sysname release Hs Hr Hmax) as (buf & Eua & Ecs).
  pose proof (headers_loop_past_end h headers_size
                (curl_slist_append None (lit "Content-Length: 0")) Hsize) as Eh.
  unfold requests_pt. rewrite Eua.
  revert put_flag log Hpf. pt_case.
Qed.

Lemma requests_pt_headers_size_beyond_array_witness :
  requests_pt 0 percent_encode answering_engine (lit "Linux") (lit "6.1")
    curl_easy_init (fresh (Some (lit "http://h/")))
    None 0 (Some [lit "X-A: 1"]) 2 0 []
  = ([], Fault (ReadOutOfBounds "headers" (Z.of_nat (length [lit "X-A: 1"])))).
Proof.
  apply (requests_pt_headers_size_beyond_array
           0 percent_encode answering_engine (lit "Linux") (lit "6.1")
           curl_easy_init (fresh (Some (lit "http://h/")))
           0 [lit "X-A: 1"] 2 0 []
           linux_nul_free release_nul_free host_fits (or_introl eq_refl)).
  reflexivity.
Defined.

(** X15.  With non-NULL data, a [data_size] of 0 or a negative even
    [data_size] passes both assertions of [requests_pt]; [url_encode] then
    runs neither of its loops and reads the first byte of [encoded], which
    nothing has written.  That read comes before the transfer: what the
    request body is from there on, the code does not define. *)
Theorem requests_pt_nonpositive_data_size :
  forall (slack : nat) (escape : cstring -> cstring) (engine : CURL -> outcome)
         (sysname release : cstring) (curl : CURL) (req : REQ)
         (d : list cstring) (data_size : Z)
         (headers : option (list cstring)) (headers_size put_flag : Z)
         (log : list CURL),
    nul_free sysname -> nul_free release ->
    strlen sysname + strlen release + 18 < 2 ^ 31 ->
    put_flag = 0 \/ put_flag = 1 ->
    data_size <= 0 ->
    Z.rem data_size 2 = 0 ->
    requests_pt slack escape engine sysname release curl req
      (Some d) data_size headers headers_size put_flag log
    = (log, Fault (match slack with
                   | O => ReadOutOfBounds "encoded" 0
                   | S _ => ReadIndeterminate "encoded" 0
                   end)).
Proof.
  intros slack escape engine sysname release curl req d data_size headers
         headers_size put_flag log Hs Hr Hmax Hpf Hneg Heven.
  destruct (user_agent_run sysname release Hs Hr Hmax) as (buf & Eua & Ecs).
  pose proof (url_encode_nonpositive slack escape curl d data_size Hneg) as Eenc.
  apply Z.eqb_eq in Heven.
  unfold requests_pt. rewrite Eua, Heven.
  revert put_flag log Hpf. pt_case.
Qed.

Lemma requests_pt_nonpositive_data_size_witness :
  requests_pt 0 percent_encode answering_engine (lit "Linux") (lit "6.1")
    curl_easy_init (fresh (Some (lit "http://h/")))
    (Some [lit "k"; lit "v"]) (-2) None 0 0 []
  = ([], Fault (ReadOutOfBounds "encoded" 0)).
Proof.
  apply (requests_pt_nonpositive_data_size
           0 percent_encode answering_engine (lit "Linux") (lit "6.1")
           curl_easy_init (fresh (Some (lit "http://h/")))
           [lit "k"; lit "v"] (-2) None 0 0 []
           linux_nul_free release_nul_free host_fits (or_introl eq_refl)).
  - discriminate.
  - reflexivity.
Defined.

(** X16.  Under ISO C, where an array has no room behind its last element,
    a POST or PUT with an even, non-empty array of C strings that are not
    all empty passes both assertions of [requests_pt] and, in [url_encode],
    writes past the end of [encoded].  That write comes before the request
    body is handed to the engine and before the transfer: what the body is
    from there on, the code does not define. *)
Theorem requests_pt_with_data_overruns_encoded :
  forall (escape : cstring -> cstring) (engine : CURL -> outcome)
         (sysname release : cstring) (curl : CURL) (req : REQ)
         (m : nat) (d : list cstring)
         (headers : option (list cstring)) (headers_size put_flag : Z)
         (log : list CURL),
    nul_free sysname -> nul_free release ->
    strlen sysname + strlen release + 18 < 2 ^ 31 ->
    put_flag = 0 \/ put_flag = 1 ->
    length d = (2 * S m)%nat ->
    Forall nul_free d ->
    0 < total_length d ->
    total_length d + 3 < 2 ^ 64 ->
    requests_pt 0 escape engine sysname release curl req
      (Some d) (2 * Z.of_nat (S m)) headers headers_size put_flag log
    = (log, Fault (WriteOutOfBounds "encoded")).
Proof.
  intros escape engine sysname release curl req m d headers headers_size
         put_flag log Hs Hr Hmax Hpf Hlen Hnf Hpos Hbig.
  destruct (user_agent_run sysname release Hs Hr Hmax) as (buf & Eua & Ecs).
  pose proof (url_encode_iso_c m escape curl d Hlen Hnf Hpos Hbig) as Eenc.
  assert (Heven : (Z.rem (2 * Z.of_nat (S m)) 2 =? 0) = true).
  { apply Z.eqb_eq. rewrite Z.mul_comm. apply Z.rem_mul. lia. }
  unfold requests_pt. rewrite Eua, Heven.
  revert put_flag log Hpf. pt_case.
Qed.

Lemma requests_pt_with_data_overruns_encoded_witness :
  requests_pt 0 percent_encode answering_engine (lit "Linux") (lit "6.1")
    curl_easy_init (fresh (Some (lit "http://h/")))
    (Some [lit "name"; lit "a b"]) (2 * Z.of_nat 1) None 0 0 []
  = ([], Fault (WriteOutOfBounds "encoded")).
Proof.
  apply (requests_pt_with_data_overruns_encoded
           percent_encode answering_engine (lit "Linux") (lit "6.1")
           curl_easy_init (fresh (Some (lit "http://h/")))
           0 [lit "name"; lit "a b"] None 0 0 []
           linux_nul_free release_nul_free host_fits (or_introl eq_refl)).
  - reflexivity.
  - repeat constructor; unfold nul_free; cbn; intuition discriminate.
  - reflexivity.
  - reflexivity.
Defined.

(** X17.  With [data_size] bytes of room behind [encoded], a POST or PUT
    with body data and no custom headers runs one transfer whose request
    body is the escape of [k0=v0&k1=v1...], to the URL of the context, with
    the header list of the handle left as it was. *)
Theorem requests_pt_sends_escaped_pairs :
  forall (slack : nat) (escape : cstring -> cstring) (engine : CURL -> outcome)
         (sysname release : cstring) (curl : CURL) (req : REQ)
         (m : nat) (d : list cstring) (headers_size put_flag : Z)
         (log : list CURL),
    nul_free sysname -> nul_free release ->
    strlen sysname + strlen release + 18 < 2 ^ 31 ->
    put_flag = 0 \/ put_flag = 1 ->
    length d = (2 * S m)%nat ->
    Forall nul_free d ->
    0 < total_length d ->
    total_length d + 3 < 2 ^ 64 ->
    (2 * S m <= slack)%nat ->
    exists h,
      fst (requests_pt slack escape engine sysname release curl req
             (Some d) (2 * Z.of_nat (S m)) None headers_size put_flag log)
      = log ++ [h] /\
      CURLOPT_POSTFIELDS h = Some (escape (joined d)) /\
      CURLOPT_URL h = url req /\
      CURLOPT_HTTPHEADER h = CURLOPT_HTTPHEADER curl.
Proof.
  intros slack escape engine sysname release curl req m d headers_size
         put_flag log Hs Hr Hmax Hpf Hlen Hnf Hpos Hbig Hroom.
  pose proof (url_encode_with_room slack m escape curl d Hlen Hnf Hpos Hbig Hroom)
    as Eenc.
  assert (Heven : Z.rem (2 * Z.of_nat (S m)) 2 = 0)
    by (rewrite Z.mul_comm; apply Z.rem_mul; lia).
  rewrite (requests_pt_data_run slack escape engine sysname release curl req
             d (escape (joined d)) (2 * Z.of_nat (S m)) None headers_size
             put_flag log Hs Hr Hmax Hpf I Heven Eenc).
  rewrite finish_log.
  match goal with
  | |- context [set_USERAGENT ?ua (method ?pf (common_opt ?c ?r))] =>
      fold (pt_handle ua pf c r); exists (pt_handle ua pf c r)
  end.
  rewrite pt_handle_body, pt_handle_url, pt_handle_header.
  repeat split.
Qed.

Lemma requests_pt_sends_escaped_pairs_witness :
  exists h,
    fst (requests_pt 2 percent_encode answering_engine (lit "Linux") (lit "6.1")
           curl_easy_init (fresh (Some (lit "http://h/")))
           (Some [lit "name"; lit "a b"]) (2 * Z.of_nat 1) None 0 1 [])
    = [] ++ [h] /\
    CURLOPT_POSTFIELDS h = Some (percent_encode (joined [lit "name"; lit "a b"])) /\
    CURLOPT_URL h = url (fresh (Some (lit "http://h/"))) /\
    CURLOPT_HTTPHEADER h = CURLOPT_HTTPHEADER curl_easy_init.
Proof.
  apply (requests_pt_sends_escaped_pairs
           2 percent_encode answering_engine (lit "Linux") (lit "6.1")
           curl_easy_init (fresh (Some (lit "http://h/")))
           0 [lit "name"; lit "a b"] 0 1 []
           linux_nul_free release_nul_free host_fits (or_intror eq_refl)).
  - reflexivity.
  - repeat constructor; unfold nul_free; cbn; intuition discriminate.
  - reflexivity.
  - reflexivity.
  - cbn. lia.
Defined.

(** ** [user_agent] *)

(** X18.  The block [user_agent] returns is exactly as long as its text and
    one terminator: [snprintf] cuts nothing off and no byte of the block is
    left indeterminate. *)
Theorem user_agent_block_is_exact :
  forall sysname release : cstring,
    nul_free sysname -> nul_free release ->
    strlen sysname + strlen release + 18 < 2 ^ 31 ->
    user_agent sysname release
    = Ok (map Some (user_agent_text sysname release) ++ [Some x00]).
Proof.
  intros sysname release Hs Hr Hmax.
  assert (Hsl : 0 <= strlen sysname) by (unfold strlen; lia).
  assert (Hrl : 0 <= strlen release) by (unfold strlen; lia).
  unfold user_agent.
  change (strlen (lit "librequests/0.1")) with 15.
  cbv zeta. change (3 + 15) with 18.
  rewrite (int_small 18) by lia.
  rewrite (int_small (18 + strlen sysname)) by lia.
  rewrite (int_small (18 + strlen sysname + strlen release)) by lia.
  rewrite size_t_small by lia.
  fold (user_agent_text sysname release).
  assert (Hlen : Z.of_nat (length (user_agent_text sysname release))
                 = 17 + strlen sysname + strlen release).
  { unfold user_agent_text, strlen. rewrite !length_app.
    change (length (lit "librequests/0.1")) with 15%nat.
    change (length (lit " ")) with 1%nat.
    change (length (lit "/")) with 1%nat. lia. }
  rewrite snprintf_exact.
  - rewrite skipn_all2; [reflexivity|].
    unfold malloc. rewrite repeat_length. lia.
  - lia.
  - unfold malloc. rewrite repeat_length. lia.
Qed.

Lemma user_agent_block_is_exact_witness :
  user_agent (lit "Linux") (lit "6.1")
  = Ok (map Some (user_agent_text (lit "Linux") (lit "6.1")) ++ [Some x00]).
Proof.
  exact (user_agent_block_is_exact (lit "Linux") (lit "6.1")
           linux_nul_free release_nul_free host_fits).
Defined.
